(** * Colemak-Vim-dq: the extension wrapper, the error classes, the
    process-wide state and the [:sort] command

    Source files embedded here:
    - [src/error.ts]                     (module [Errors])
    - [src/state/globalState.ts]         (module [GlobalStateModel])
    - [src/cmd_line/commands/sort.ts]    (module [Sort])
    - [extension.ts]                     (module [Extension])

    [Mode] and [TextBuffer] hold what these files import from the host
    editor and from files that are not embedded; [Engine] is the
    key-sequence engine behind [ModeHandler.handleKeyEvent], as the
    specification describes it.

    JavaScript strings are modelled as [string]; JavaScript numbers that
    are used as line numbers, column numbers and error codes are modelled
    as [nat] and [N]. A thrown JavaScript exception is a value of
    [Errors.Exception]; a function that may throw returns
    [Exception + A]. Asynchronous functions are run to their end. *)

From Stdlib Require Import String Ascii ZArith NArith DecimalString DecimalN Lia.
From Stdlib Require Import Permutation Sorted.
From stdpp Require Import base list strings gmap sorting.

Local Open Scope string_scope.
Local Open Scope list_scope.

(** ** src/error.ts *)
Module Errors.

(** [export enum ErrorCode]. *)
Inductive ErrorCode : Set :=
  | InvalidAddress | MarkNotSet | NoAlternateFile | NoInsertedTextYet
  | NoFileName | NoPreviousCommand | NoPreviousRegularExpression
  | NoWriteSinceLastChange | ErrorWritingToFile | RecursiveMapping
  | NoStringUnderCursor | NothingInRegister | InvalidRegisterName
  | SearchHitTop | SearchHitBottom | CannotCloseLastWindow
  | ArgumentRequired | InvalidArgument | NoRangeAllowed | PatternNotFound
  | TrailingCharacters | NotAnEditorCommand | NoBuffersDeleted
  | UnknownOption | AtStartOfChangeList | AtEndOfChangeList
  | ChangeListIsEmpty.

(** The numeric value of each enum member. *)
Definition ErrorCode_value (c : ErrorCode) : N :=
  match c with
  | InvalidAddress => 14
  | MarkNotSet => 20
  | NoAlternateFile => 23
  | NoInsertedTextYet => 29
  | NoFileName => 32
  | NoPreviousCommand => 34
  | NoPreviousRegularExpression => 35
  | NoWriteSinceLastChange => 37
  | ErrorWritingToFile => 208
  | RecursiveMapping => 223
  | NoStringUnderCursor => 348
  | NothingInRegister => 353
  | InvalidRegisterName => 354
  | SearchHitTop => 384
  | SearchHitBottom => 385
  | CannotCloseLastWindow => 444
  | ArgumentRequired => 471
  | InvalidArgument => 474
  | NoRangeAllowed => 481
  | PatternNotFound => 486
  | TrailingCharacters => 488
  | NotAnEditorCommand => 492
  | NoBuffersDeleted => 516
  | UnknownOption => 518
  | AtStartOfChangeList => 662
  | AtEndOfChangeList => 663
  | ChangeListIsEmpty => 664
  end%N.

(** [export const ErrorMessage: IErrorMessage]: an object indexed by
    number; a missing key reads as [undefined], here [None]. *)
Definition ErrorMessage_table : list (N * string) :=
  [ (14, "Invalid address");
    (20, "Mark not set");
    (23, "No alternate file");
    (29, "No inserted text yet");
    (32, "No file name");
    (34, "No previous command");
    (35, "No previous regular expression");
    (37, "No write since last change (add ! to override)");
    (208, "Error writing to file");
    (223, "Recursive mapping");
    (348, "No string under cursor");
    (353, "Nothing in register");
    (354, "Invalid register name");
    (384, "Search hit TOP without match for");
    (385, "Search hit BOTTOM without match for");
    (444, "Cannot close last window");
    (471, "Argument required");
    (474, "Invalid argument");
    (481, "No range allowed");
    (486, "Pattern not found");
    (488, "Trailing characters");
    (492, "Not an editor command");
    (516, "No buffers were deleted");
    (518, "Unknown option");
    (662, "At start of changelist");
    (663, "At end of changelist");
    (664, "changelist is empty") ]%N.

Fixpoint assoc_N (k : N) (t : list (N * string)) : option string :=
  match t with
  | [] => None
  | (k', v) :: t' => if N.eqb k k' then Some v else assoc_N k t'
  end.

Definition ErrorMessage (code : N) : option string :=
  assoc_N code ErrorMessage_table.

(** JavaScript truthiness of an optional string: [undefined] and the
    empty string are falsy. *)
Definition truthy (s : option string) : bool :=
  match s with
  | None => false
  | Some s => negb (String.eqb s "")
  end.

(** [Number.isSafeInteger] on the natural numbers: below [2^53] every
    natural number is a JavaScript number and is rendered digit by
    digit. *)
Definition isSafeInteger (n : N) : bool := (n <? 2 ^ 53)%N.

(** Decimal rendering of a number inside a template string. It is the
    rendering of JavaScript on the safe integers, which hold every code
    of this file; past them JavaScript rounds, and from [1e21] on writes
    an exponent, so nothing is stated of this function there. *)
Definition number_toString (n : N) : string :=
  NilZero.string_of_uint (N.to_uint n).

(** The classes of the file and the [extends] clauses. [ErrorClass] is the
    built-in [Error]. *)
Inductive JsClass : Set :=
  | ErrorClass
  | VimErrorClass
  | ForceStopRemappingErrorClass.

Definition JsClass_eqb (a b : JsClass) : bool :=
  match a, b with
  | ErrorClass, ErrorClass
  | VimErrorClass, VimErrorClass
  | ForceStopRemappingErrorClass, ForceStopRemappingErrorClass => true
  | _, _ => false
  end.

Definition extends (c : JsClass) : option JsClass :=
  match c with
  | ErrorClass => None
  | VimErrorClass => Some ErrorClass
  | ForceStopRemappingErrorClass => Some ErrorClass
  end.

(** Walk of the prototype chain; the chains of this file have at most two
    links, [fuel] bounds the walk. *)
Fixpoint subclass_fuel (fuel : nat) (c d : JsClass) : bool :=
  JsClass_eqb c d ||
  match fuel with
  | O => false
  | S f =>
      match extends c with
      | Some p => subclass_fuel f p d
      | None => false
      end
  end.

Definition subclass (c d : JsClass) : bool := subclass_fuel 2 c d.

(** [class VimError extends Error]: [code] and the overriding [message]. *)
Record VimError : Set := mkVimError {
  code : N;
  message : string
}.

(** [class ForceStopRemappingError extends Error]: the only data is the
    inherited [message], set from [reason] by [super(reason)]. *)
Record ForceStopRemappingError : Set := mkForceStop {
  reason : string
}.

(** What a [throw] can carry in these files. *)
Inductive Exception : Set :=
  | JsError (msg : string)
  | ThrownVimError (e : VimError)
  | ThrownForceStop (e : ForceStopRemappingError).

Definition class_of (x : Exception) : JsClass :=
  match x with
  | JsError _ => ErrorClass
  | ThrownVimError _ => VimErrorClass
  | ThrownForceStop _ => ForceStopRemappingErrorClass
  end.

(** [x instanceof C]. *)
Definition instanceof (x : Exception) (C : JsClass) : bool :=
  subclass (class_of x) C.

(** The [code] property read off an arbitrary thrown object: only a
    [VimError] declares it. *)
Definition code_of (x : Exception) : option N :=
  match x with
  | ThrownVimError e => Some (code e)
  | _ => None
  end.


(** [static fromCode(code: ErrorCode, extraValue?: string): VimError]. The
    code is a natural number here; the enum type admits no other. *)
Definition fromCode (code : N) (extraValue : option string)
  : Exception + VimError :=
  if truthy (ErrorMessage code) then
    inr (mkVimError code
           (default "" (ErrorMessage code) +:+
            (if truthy extraValue then ": " +:+ default "" extraValue else "")))
  else
    inl (JsError ("unknown error code: " +:+ number_toString code)).

(** [override toString(): string]. *)
Definition toString (e : VimError) : string :=
  "E" +:+ number_toString (code e) +:+ ": " +:+ message e.

(** [constructor(reason: string = 'StopRemapping')]. *)
Definition new_ForceStopRemappingError (r : option string)
  : ForceStopRemappingError :=
  mkForceStop (default "StopRemapping" r).

(** [static fromVimError(vimError: VimError)]. *)
Definition fromVimError (vimError : VimError) : ForceStopRemappingError :=
  new_ForceStopRemappingError (Some (toString vimError)).

End Errors.

(** ** Types declared outside the embedded files *)
Module Mode.

(** Modelled from the spec: the [ModeName] enum of [src/mode/mode], which
    the embedded files import but which is not among them. The members are
    the modes the specification enumerates in its data model. *)
Inductive ModeName : Set :=
  | Normal | Insert | Visual | VisualLine | VisualBlock | Replace
  | OperatorPending | SearchInProgress | CommandLine | Disabled.

Definition ModeName_eqb (a b : ModeName) : bool :=
  match a, b with
  | Normal, Normal | Insert, Insert | Visual, Visual
  | VisualLine, VisualLine | VisualBlock, VisualBlock | Replace, Replace
  | OperatorPending, OperatorPending | SearchInProgress, SearchInProgress
  | CommandLine, CommandLine | Disabled, Disabled => true
  | _, _ => false
  end.

(** [Position] of [src/common/motion/position] and of the host editor:
    a zero-based line and character. *)
Record Position : Set := mkPosition {
  line : nat;
  character : nat
}.

End Mode.

(** ** src/state/globalState.ts *)
Module GlobalStateModel.
Import Mode.

Inductive SearchDirection : Set := Forward | Backward.

Section Statics.

(** Classes the file imports and only stores: their contents are opaque to
    [GlobalState]. *)
Context {RecordedState SubstituteState JumpTracker SearchOptions : Type}.

(** [SearchState], as far as its constructor call in [load] shows it. *)
Record SearchState : Type := new_SearchState {
  searchDirection : SearchDirection;
  searchStartPosition : Position;
  searchString : string;
  searchOptions : option SearchOptions;
  searchCurrentMode : ModeName
}.

(** [SearchHistory] of [src/history/historyFile]: the lines of the history
    file. [history_add] is the effect of its [add] method on those lines. *)
Record SearchHistory : Type := mkSearchHistory {
  history_get : list string
}.

Variable history_add : string -> list string -> list string.

(** The [private static] fields of the class: one copy per process. *)
Record Statics : Type := mkStatics {
  _previousFullAction : option RecordedState;
  _searchStatePrevious : list SearchState;
  _substituteState : option SubstituteState;
  _searchState : option SearchState;
  _searchStateIndex : Z;
  _hl : bool;
  _jumpTracker : JumpTracker;
  _searchHistory : option SearchHistory
}.

(** The static initialisers. *)
Definition initial (new_JumpTracker : JumpTracker) : Statics :=
  {| _previousFullAction := None;
     _searchStatePrevious := [];
     _substituteState := None;
     _searchState := None;
     _searchStateIndex := 0;
     _hl := true;
     _jumpTracker := new_JumpTracker;
     _searchHistory := None |}.

(** An instance made by [new GlobalState()]. The class declares no
    instance field; [instance_id] only tells two instances apart. *)
Record GlobalState : Set := new_GlobalState {
  instance_id : nat
}.

Definition get_searchStatePrevious (this : GlobalState) (s : Statics)
  : list SearchState :=
  _searchStatePrevious s.

Definition set_searchStatePrevious (this : GlobalState)
    (states : list SearchState) (s : Statics) : Statics :=
  {| _previousFullAction := _previousFullAction s;
     _searchStatePrevious := _searchStatePrevious s ++ states;
     _substituteState := _substituteState s;
     _searchState := _searchState s;
     _searchStateIndex := _searchStateIndex s;
     _hl := _hl s;
     _jumpTracker := _jumpTracker s;
     _searchHistory := _searchHistory s |}.

(** [this.searchStatePrevious.push(x)]: the getter hands out the static
    array itself and [push] extends it in place. *)
Definition push_searchStatePrevious (this : GlobalState)
    (x : SearchState) (s : Statics) : Statics :=
  {| _previousFullAction := _previousFullAction s;
     _searchStatePrevious := get_searchStatePrevious this s ++ [x];
     _substituteState := _substituteState s;
     _searchState := _searchState s;
     _searchStateIndex := _searchStateIndex s;
     _hl := _hl s;
     _jumpTracker := _jumpTracker s;
     _searchHistory := _searchHistory s |}.

Definition set_searchHistory (h : SearchHistory) (s : Statics) : Statics :=
  {| _previousFullAction := _previousFullAction s;
     _searchStatePrevious := _searchStatePrevious s;
     _substituteState := _substituteState s;
     _searchState := _searchState s;
     _searchStateIndex := _searchStateIndex s;
     _hl := _hl s;
     _jumpTracker := _jumpTracker s;
     _searchHistory := Some h |}.

(** [public async load()]. [persisted] is what [SearchHistory.load] reads
    from the history file, so what [get()] returns afterwards. The
    [forEach] is the left fold. *)
Definition load (this : GlobalState) (persisted : list string)
    (s : Statics) : Statics :=
  match _searchHistory s with
  | None =>
      let s1 := set_searchHistory (mkSearchHistory persisted) s in
      fold_left
        (fun acc val =>
           push_searchStatePrevious this
             (new_SearchState Forward (mkPosition 0 0) val None Normal) acc)
        persisted s1
  | Some _ => s
  end.

(** The search state [load] makes of one line of the history file. *)
Definition loaded (val : string) : SearchState :=
  new_SearchState Forward (mkPosition 0 0) val None Normal.

Definition addNewSearchHistoryItem (this : GlobalState)
    (searchString : string) (s : Statics) : Statics :=
  match _searchHistory s with
  | Some h =>
      set_searchHistory (mkSearchHistory (history_add searchString (history_get h))) s
  | None => s
  end.

Definition get_previousFullAction (this : GlobalState) (s : Statics) :=
  _previousFullAction s.

Definition set_previousFullAction (this : GlobalState)
    (state : option RecordedState) (s : Statics) : Statics :=
  {| _previousFullAction := state;
     _searchStatePrevious := _searchStatePrevious s;
     _substituteState := _substituteState s;
     _searchState := _searchState s;
     _searchStateIndex := _searchStateIndex s;
     _hl := _hl s;
     _jumpTracker := _jumpTracker s;
     _searchHistory := _searchHistory s |}.

Definition get_substituteState (this : GlobalState) (s : Statics) :=
  _substituteState s.

Definition set_substituteState (this : GlobalState)
    (state : option SubstituteState) (s : Statics) : Statics :=
  {| _previousFullAction := _previousFullAction s;
     _searchStatePrevious := _searchStatePrevious s;
     _substituteState := state;
     _searchState := _searchState s;
     _searchStateIndex := _searchStateIndex s;
     _hl := _hl s;
     _jumpTracker := _jumpTracker s;
     _searchHistory := _searchHistory s |}.

Definition get_searchState (this : GlobalState) (s : Statics) :=
  _searchState s.

Definition set_searchState (this : GlobalState)
    (state : option SearchState) (s : Statics) : Statics :=
  {| _previousFullAction := _previousFullAction s;
     _searchStatePrevious := _searchStatePrevious s;
     _substituteState := _substituteState s;
     _searchState := state;
     _searchStateIndex := _searchStateIndex s;
     _hl := _hl s;
     _jumpTracker := _jumpTracker s;
     _searchHistory := _searchHistory s |}.

Definition get_searchStateIndex (this : GlobalState) (s : Statics) :=
  _searchStateIndex s.

Definition set_searchStateIndex (this : GlobalState) (state : Z)
    (s : Statics) : Statics :=
  {| _previousFullAction := _previousFullAction s;
     _searchStatePrevious := _searchStatePrevious s;
     _substituteState := _substituteState s;
     _searchState := _searchState s;
     _searchStateIndex := state;
     _hl := _hl s;
     _jumpTracker := _jumpTracker s;
     _searchHistory := _searchHistory s |}.

Definition get_hl (this : GlobalState) (s : Statics) := _hl s.

Definition set_hl (this : GlobalState) (enabled : bool) (s : Statics)
  : Statics :=
  {| _previousFullAction := _previousFullAction s;
     _searchStatePrevious := _searchStatePrevious s;
     _substituteState := _substituteState s;
     _searchState := _searchState s;
     _searchStateIndex := _searchStateIndex s;
     _hl := enabled;
     _jumpTracker := _jumpTracker s;
     _searchHistory := _searchHistory s |}.

Definition get_jumpTracker (this : GlobalState) (s : Statics) :=
  _jumpTracker s.

(** There is no setter for the jump tracker: a caller updates the object
    the getter returns, as [extension.ts] does with
    [globalState.jumpTracker.handleTextDeleted(...)]. [method] is the
    effect of the called method on the tracker. *)
Definition call_jumpTracker (this : GlobalState)
    (method : JumpTracker -> JumpTracker) (s : Statics) : Statics :=
  {| _previousFullAction := _previousFullAction s;
     _searchStatePrevious := _searchStatePrevious s;
     _substituteState := _substituteState s;
     _searchState := _searchState s;
     _searchStateIndex := _searchStateIndex s;
     _hl := _hl s;
     _jumpTracker := method (get_jumpTracker this s);
     _searchHistory := _searchHistory s |}.

(** The operations the class offers to its callers, and a run of a
    sequence of them through any instances. *)
Inductive Operation : Type :=
  | OpSetSearchStatePrevious (states : list SearchState)
  | OpLoad (persisted : list string)
  | OpAddNewSearchHistoryItem (searchString : string)
  | OpSetPreviousFullAction (state : option RecordedState)
  | OpSetSubstituteState (state : option SubstituteState)
  | OpSetSearchState (state : option SearchState)
  | OpSetSearchStateIndex (state : Z)
  | OpSetHl (enabled : bool)
  | OpCallJumpTracker (method : JumpTracker -> JumpTracker).

Definition perform (this : GlobalState) (op : Operation) (s : Statics)
  : Statics :=
  match op with
  | OpSetSearchStatePrevious states => set_searchStatePrevious this states s
  | OpLoad persisted => load this persisted s
  | OpAddNewSearchHistoryItem str => addNewSearchHistoryItem this str s
  | OpSetPreviousFullAction st => set_previousFullAction this st s
  | OpSetSubstituteState st => set_substituteState this st s
  | OpSetSearchState st => set_searchState this st s
  | OpSetSearchStateIndex i => set_searchStateIndex this i s
  | OpSetHl b => set_hl this b s
  | OpCallJumpTracker m => call_jumpTracker this m s
  end.

Fixpoint run (ops : list (GlobalState * Operation)) (s : Statics)
  : Statics :=
  match ops with
  | [] => s
  | (this, op) :: rest => run rest (perform this op s)
  end.

End Statics.

Arguments SearchState : clear implicits.
Arguments Statics : clear implicits.
Arguments Operation : clear implicits.

End GlobalStateModel.

(** ** The host editor's text buffer *)
Module TextBuffer.
Import Mode.

(** The line feed, carriage return, and the one-character strings. *)
Definition LF_char : ascii := ascii_of_nat 10.
Definition CR_char : ascii := ascii_of_nat 13.
Definition LF : string := String LF_char EmptyString.

(** A document is the list of its lines, without their terminators. *)
Definition Document : Type := list string.

Definition lineCount (d : Document) : nat := length d.

(** [document.lineAt(n).text]; the callers below stay in range. *)
Definition lineAt (d : Document) (n : nat) : string := nth n d "".

(** [vscode.Range]: the constructor orders its two positions. *)
Record Range : Set := mkRange {
  range_start : Position;
  range_end : Position
}.

Definition Position_leb (p q : Position) : bool :=
  Nat.ltb (line p) (line q)
  || (Nat.eqb (line p) (line q) && Nat.leb (character p) (character q)).

Definition new_Range (startLine startCharacter endLine endCharacter : nat)
  : Range :=
  let p := mkPosition startLine startCharacter in
  let q := mkPosition endLine endCharacter in
  if Position_leb p q then mkRange p q else mkRange q p.

(** The host adjusts a position to the document: a line past the end
    becomes the end of the last line, a character past the end of its line
    becomes the end of that line. *)
Definition validatePosition (d : Document) (p : Position) : Position :=
  if Nat.leb (lineCount d) (line p) then
    mkPosition (lineCount d - 1) (String.length (lineAt d (lineCount d - 1)))
  else
    mkPosition (line p) (Nat.min (character p) (String.length (lineAt d (line p)))).

(** Lines of a text: ["\n"], ["\r\n"] and ["\r"] end a line. *)
Fixpoint splitLines (s : string) : list string :=
  match s with
  | EmptyString => [EmptyString]
  | String c rest =>
      if Ascii.eqb c LF_char then EmptyString :: splitLines rest
      else if Ascii.eqb c CR_char then
        match rest with
        | String c' rest' =>
            if Ascii.eqb c' LF_char then EmptyString :: splitLines rest'
            else EmptyString :: splitLines rest
        | EmptyString => EmptyString :: splitLines rest
        end
      else
        match splitLines rest with
        | [] => [String c EmptyString]
        | l :: ls => String c l :: ls
        end
  end.

(** A line of a document holds no line terminator. *)
Fixpoint noTerminator (s : string) : bool :=
  match s with
  | EmptyString => true
  | String c rest =>
      negb (Ascii.eqb c LF_char) && negb (Ascii.eqb c CR_char)
      && noTerminator rest
  end.

Definition string_take (n : nat) (s : string) : string := substring 0 n s.
Definition string_drop (n : nat) (s : string) : string :=
  substring n (String.length s - n) s.

(** Modelled from the spec: [TextEditor.replace] of [src/textEditor], the
    editor abstraction's [applyEdit(range, newText)], which is not among
    the embedded files. The characters from the start to the end of the
    range are replaced by the text; what precedes the start on its line
    and what follows the end on its line are kept. *)
Definition replace (d : Document) (r : Range) (text : string) : Document :=
  let s := validatePosition d (range_start r) in
  let e := validatePosition d (range_end r) in
  let kept_before := string_take (character s) (lineAt d (line s)) in
  let kept_after := string_drop (character e) (lineAt d (line e)) in
  (take (line s) d
     ++ splitLines (kept_before +:+ text +:+ kept_after)
     ++ drop (S (line e)) d).

End TextBuffer.

(** ** src/cmd_line/commands/sort.ts *)
Module Sort.
Import Mode Errors TextBuffer.

(** [interface ISortCommandArguments]. *)
Record ISortCommandArguments : Set := mkSortArgs {
  reverse : bool;
  ignoreCase : bool;
  unique : bool
}.

(** The [for] loop of [sortLines]: [fuel] bounds the iterations, and the
    line count is enough of it. *)
Fixpoint collectLines (fuel : nat) (d : Document) (endLine currentLine : nat)
    (originalLines : list string) : list string :=
  match fuel with
  | O => originalLines
  | S fuel' =>
      if Nat.leb currentLine endLine && Nat.ltb currentLine (lineCount d) then
        collectLines fuel' d endLine (S currentLine)
          (originalLines ++ [lineAt d currentLine])
      else originalLines
  end.

(** [[...new Set(originalLines)]]: insertion order, first occurrence kept. *)
Fixpoint Set_spread (seen : list string) (l : list string) : list string :=
  match l with
  | [] => seen
  | x :: rest =>
      if existsb (String.eqb x) seen then Set_spread seen rest
      else Set_spread (seen ++ [x]) rest
  end.

(** [Array.prototype.sort(compareFn)] is a stable sort: [a] stays before
    [b] unless [compareFn(a, b) > 0]. *)
Fixpoint sort_insert (compareFn : string -> string -> Z) (x : string)
    (l : list string) : list string :=
  match l with
  | [] => [x]
  | y :: rest =>
      if (compareFn x y <=? 0)%Z then x :: y :: rest
      else y :: sort_insert compareFn x rest
  end.

Definition Array_sort (compareFn : string -> string -> Z)
    (l : list string) : list string :=
  foldr (sort_insert compareFn) [] l.

(** The comparison of [sort()] without an argument: by code units. *)
Definition defaultCompare (a b : string) : Z :=
  match String.compare a b with
  | Lt => (-1)%Z
  | Eq => 0%Z
  | Gt => 1%Z
  end.

(** [a] may stand before [b] in an array sorted with [compareFn]. *)
Definition before (compareFn : string -> string -> Z) (a b : string) : Prop :=
  (compareFn a b <= 0)%Z.

Section SortLines.

(** [String.prototype.localeCompare], the host's collation. *)
Variable localeCompare : string -> string -> Z.

(** [async sortLines(vimState, startLine, endLine)], on the document of
    [vimState]. Reading [.length] of the last element of an empty array
    throws a [TypeError]. *)
Definition sortLines (args : ISortCommandArguments) (d : Document)
    (startLine endLine : nat) : Exception + Document :=
  let originalLines := collectLines (lineCount d) d endLine startLine [] in
  let originalLines :=
    if unique args then Set_spread [] originalLines else originalLines in
  match last originalLines with
  | None => inl (JsError "TypeError: Cannot read properties of undefined")
  | Some lastLine =>
      let lastLineLength := String.length lastLine in
      let sortedLines :=
        if ignoreCase args
        then Array_sort (fun a b => localeCompare a b) originalLines
        else Array_sort defaultCompare originalLines in
      let sortedLines := if reverse args then rev sortedLines else sortedLines in
      let sortedContent := String.concat LF sortedLines in
      inr (replace d (new_Range startLine 0 endLine lastLineLength) sortedContent)
  end.

End SortLines.

End Sort.

(** ** extension.ts *)
Module Extension.
Import Mode TextBuffer.

(** [vscode.TextDocumentContentChangeEvent]: the affected range and the
    text that replaces it. *)
Record ContentChange : Set := mkContentChange {
  change_range : Range;
  change_text : string
}.

(** [vscode.TextDocument], as far as the file reads it. *)
Record TextDocument : Set := mkTextDocument {
  fileName : string;
  uri : string;
  isDirty : bool;
  isUntitled : bool
}.

(** [vscode.TextDocumentChangeEvent]. *)
Record TextDocumentChangeEvent : Set := mkChangeEvent {
  event_document : TextDocument;
  contentChanges : list ContentChange
}.

(** [vscode.TextEditor] with the string of its [EditorIdentity]. *)
Record TextEditor : Set := mkTextEditor {
  editorIdentity : string;
  editor_document : TextDocument
}.

(** A [ModeHandler], as far as the file reads and writes it:
    [vimState.identity.fileName], [vimState.currentMode] and
    [vimState.historyTracker.currentContentChanges], which may be
    [undefined]. *)
Record ModeHandler : Set := mkModeHandler {
  identity_fileName : string;
  currentMode : ModeName;
  currentContentChanges : option (list ContentChange)
}.

(** Arguments the host passes to an overridden command. *)
Inductive Args : Set :=
  | TypeArgs (text : string)
  | ReplacePreviousCharArgs (text : string) (replaceCharCnt : nat)
  | NoArgs.

(** Calls into collaborators whose code is elsewhere, in the order made. *)
Inductive Effect : Set :=
  | JumpTracker_handleTextDeleted (file : string) (r : Range)
  | JumpTracker_handleTextAdded (file : string) (r : Range) (text : string)
  | Console_warn (msg : string)
  | Commands_executeCommand (command : string) (args : Args)
  | VsCodeContext_Set (key : string) (value : bool)
  | ModeHandler_handleKeyEvent (editor : string) (key : string)
  | ModeHandler_handleMultipleKeyEvents (editor : string) (keys : list string)
  | ModeHandler_setCursorToSelectionStart (editor : string)
  | HistoryTracker_clear (editor : string).

(** The module-level, configuration and host state the file works on. *)
Record State : Type := mkState {
  disableExtension : bool;                  (* configuration.disableExtension *)
  activeTextEditor : option TextEditor;     (* vscode.window.activeTextEditor *)
  isInComposition : bool;                   (* compositionState *)
  composingText : string;
  isTesting : bool;                         (* Globals.isTesting *)
  mockModeHandler : option ModeHandler;     (* Globals.mockModeHandler *)
  modeHandlers : gmap string ModeHandler;   (* ModeHandlerMap *)
  timers : list TextDocumentChangeEvent;    (* callbacks given to setTimeout *)
  effects : list Effect
}.

Definition emit (e : Effect) (st : State) : State :=
  mkState (disableExtension st) (activeTextEditor st) (isInComposition st)
    (composingText st) (isTesting st) (mockModeHandler st) (modeHandlers st)
    (timers st) (effects st ++ [e]).

Definition set_disableExtension (b : bool) (st : State) : State :=
  mkState b (activeTextEditor st) (isInComposition st)
    (composingText st) (isTesting st) (mockModeHandler st) (modeHandlers st)
    (timers st) (effects st).

Definition set_composition (inComposition : bool) (text : string)
    (st : State) : State :=
  mkState (disableExtension st) (activeTextEditor st) inComposition
    text (isTesting st) (mockModeHandler st) (modeHandlers st)
    (timers st) (effects st).

Definition set_mockModeHandler (m : option ModeHandler) (st : State)
  : State :=
  mkState (disableExtension st) (activeTextEditor st) (isInComposition st)
    (composingText st) (isTesting st) m (modeHandlers st) (timers st)
    (effects st).

Definition set_modeHandlers (m : gmap string ModeHandler) (st : State)
  : State :=
  mkState (disableExtension st) (activeTextEditor st) (isInComposition st)
    (composingText st) (isTesting st) (mockModeHandler st) m (timers st)
    (effects st).

Definition set_timers (t : list TextDocumentChangeEvent) (st : State)
  : State :=
  mkState (disableExtension st) (activeTextEditor st) (isInComposition st)
    (composingText st) (isTesting st) (mockModeHandler st) (modeHandlers st)
    t (effects st).

(** [const textWasDeleted = event => ...]. *)
Definition textWasDeleted (event : TextDocumentChangeEvent) : bool :=
  match contentChanges event with
  | [c] =>
      String.eqb (change_text c) ""
      && negb (Nat.eqb (line (range_start (change_range c)))
                       (line (range_end (change_range c))))
  | _ => false
  end.

(** [const textWasAdded = event => ...]. *)
Definition textWasAdded (event : TextDocumentChangeEvent) : bool :=
  match contentChanges event with
  | [c] =>
      (String.eqb (change_text c) LF
       || String.eqb (change_text c) (String CR_char LF))
      && Nat.eqb (line (range_start (change_range c)))
                 (line (range_end (change_range c)))
  | _ => false
  end.

(** [let contentChangeHandler = (modeHandler: ModeHandler) => ...], on a
    mode handler that is there. *)
Definition contentChangeHandler (event : TextDocumentChangeEvent)
    (modeHandler : ModeHandler) : ModeHandler :=
  if ModeName_eqb (currentMode modeHandler) Insert then
    let current :=
      match currentContentChanges modeHandler with
      | None => []
      | Some cs => cs
      end in
    mkModeHandler (identity_fileName modeHandler) (currentMode modeHandler)
      (Some (current ++ contentChanges event))
  else modeHandler.

(** The jump-tracker branch of the change listener. *)
Definition trackJumps (event : TextDocumentChangeEvent) (st : State) : State :=
  match contentChanges event with
  | c :: _ =>
      if textWasDeleted event then
        emit (JumpTracker_handleTextDeleted (fileName (event_document event))
                (change_range c)) st
      else if textWasAdded event then
        emit (JumpTracker_handleTextAdded (fileName (event_document event))
                (change_range c) (change_text c)) st
      else st
  | [] => st
  end.

(** The mode handlers the listener hands to [contentChangeHandler]. *)
Definition handleContentChange (event : TextDocumentChangeEvent)
    (st : State) : State :=
  if isTesting st then
    match mockModeHandler st with
    | None => emit (Console_warn "No mode handler found") st
    | Some mh => set_mockModeHandler (Some (contentChangeHandler event mh)) st
    end
  else
    set_modeHandlers
      ((fun modeHandler =>
          if String.eqb (identity_fileName modeHandler)
                        (fileName (event_document event))
          then contentChangeHandler event modeHandler
          else modeHandler) <$> modeHandlers st)
      st.

(** The listener registered with
    [vscode.workspace.onDidChangeTextDocument]; its last step hands a
    callback to [setTimeout]. *)
Definition onDidChangeTextDocument (event : TextDocumentChangeEvent)
    (st : State) : State :=
  if disableExtension st then st
  else
    let st := trackJumps event st in
    let st := handleContentChange event st in
    set_timers (timers st ++ [event]) st.

(** [function handleContentChangedFromDisk(document)]: one
    [historyTracker.clear()] per mode handler of the document. *)
Definition handleContentChangedFromDisk (document : TextDocument)
    (st : State) : State :=
  foldr (fun kv acc => emit (HistoryTracker_clear kv.1) acc) st
    (filter (fun kv => identity_fileName kv.2 = fileName document)
       (map_to_list (modeHandlers st))).

(** The callback of the listener, when the host runs the oldest timer. *)
Definition runTimer (st : State) : State :=
  match timers st with
  | [] => st
  | event :: rest =>
      let st := set_timers rest st in
      if negb (isDirty (event_document event))
         && negb (isUntitled (event_document event))
         && negb (Nat.eqb (length (contentChanges event)) 0)
      then handleContentChangedFromDisk (event_document event) st
      else st
  end.

(** Modelled from the spec: the mode handler [ModeHandlerMap.getOrCreate]
    makes ([src/mode/modeHandlerMap] is not among the embedded files). It
    starts in the initial mode of the mode state machine, Normal, with no
    content changes yet. *)
Definition new_ModeHandler (editor : TextEditor) : ModeHandler :=
  mkModeHandler (fileName (editor_document editor)) Normal None.

(** [getAndUpdateModeHandler()]: the handler of the active editor, made
    on first use. The result is the key of the handler in the map. *)
Definition getAndUpdateModeHandler (editor : TextEditor) (st : State)
  : string * State :=
  match modeHandlers st !! editorIdentity editor with
  | Some _ => (editorIdentity editor, st)
  | None =>
      (editorIdentity editor,
       set_modeHandlers
         (<[editorIdentity editor := new_ModeHandler editor]> (modeHandlers st))
         st)
  end.

Definition modeOf (key : string) (st : State) : ModeName :=
  match modeHandlers st !! key with
  | Some mh => currentMode mh
  | None => Normal
  end.

(** Commands the extension registers with the host. *)
Inductive Command : Set :=
  | Cmd_type (text : string)
  | Cmd_replacePreviousChar (text : string) (replaceCharCnt : nat)
  | Cmd_compositionStart
  | Cmd_compositionEnd
  | Cmd_toggleVim
  | Cmd_boundKey (command : string) (key : string).

Definition command_name (c : Command) : string :=
  match c with
  | Cmd_type _ => "type"
  | Cmd_replacePreviousChar _ _ => "replacePreviousChar"
  | Cmd_compositionStart => "compositionStart"
  | Cmd_compositionEnd => "compositionEnd"
  | Cmd_toggleVim => "toggleVim"
  | Cmd_boundKey command _ => command
  end.

Definition command_args (c : Command) : Args :=
  match c with
  | Cmd_type text => TypeArgs text
  | Cmd_replacePreviousChar text n => ReplacePreviousCharArgs text n
  | _ => NoArgs
  end.

(** [text.split('')]. *)
Fixpoint split_chars (s : string) : list string :=
  match s with
  | EmptyString => []
  | String c rest => String c EmptyString :: split_chars rest
  end.

(** The tasks the overriding callbacks put on the task queue, run here at
    once and to their end. *)
Definition type_task (text : string) (editor : TextEditor) (st : State)
  : State :=
  let '(mh, st) := getAndUpdateModeHandler editor st in
  if isInComposition st then
    set_composition (isInComposition st) (composingText st +:+ text) st
  else emit (ModeHandler_handleKeyEvent mh text) st.

Definition replacePreviousChar_task (text : string) (replaceCharCnt : nat)
    (editor : TextEditor) (st : State) : State :=
  let '(mh, st) := getAndUpdateModeHandler editor st in
  if isInComposition st then
    set_composition (isInComposition st)
      (string_take (String.length (composingText st) - replaceCharCnt)
                   (composingText st) +:+ text) st
  else
    emit (ModeHandler_setCursorToSelectionStart mh)
      (emit (Commands_executeCommand "default:replacePreviousChar"
               (ReplacePreviousCharArgs text replaceCharCnt)) st).

Definition compositionStart_task (editor : TextEditor) (st : State) : State :=
  let '(mh, st) := getAndUpdateModeHandler editor st in
  if negb (ModeName_eqb (modeOf mh st) Insert) then
    set_composition true (composingText st) st
  else st.

Definition compositionEnd_task (editor : TextEditor) (st : State) : State :=
  let '(mh, st) := getAndUpdateModeHandler editor st in
  if negb (ModeName_eqb (modeOf mh st) Insert) then
    let text := composingText st in
    emit (ModeHandler_handleMultipleKeyEvents mh (split_chars text))
      (set_composition false "" st)
  else st.

(** [function overrideCommand(context, command, callback)]: what the
    registered wrapper does when the host runs the command. *)
Definition overrideCommand (command : string) (args : Args)
    (callback : TextEditor -> State -> State) (st : State) : State :=
  if disableExtension st then
    emit (Commands_executeCommand ("default:" +:+ command) args) st
  else
    match activeTextEditor st with
    | None => st
    | Some editor =>
        if String.eqb (uri (editor_document editor)) "debug:input" then
          emit (Commands_executeCommand ("default:" +:+ command) args) st
        else callback editor st
    end.

(** [function registerCommand(context, command, callback)]. *)
Definition registerCommand (callback : TextEditor -> State -> State)
    (st : State) : State :=
  match activeTextEditor st with
  | None => st
  | Some editor => callback editor st
  end.

(** [async function toggleExtension(isDisabled, compositionState)]. *)
Definition toggleExtension (isDisabled : bool) (st : State) : State :=
  let st := emit (VsCodeContext_Set "vim.active" (negb isDisabled)) st in
  match activeTextEditor st with
  | None => st
  | Some editor =>
      let '(mh, st) := getAndUpdateModeHandler editor st in
      if isDisabled then
        let st := emit (ModeHandler_handleKeyEvent mh "<ExtensionDisable>") st in
        let st := set_composition false "" st in
        set_modeHandlers ∅ st
      else emit (ModeHandler_handleKeyEvent mh "<ExtensionEnable>") st
  end.

(** [async function handleKeyEvent(key)]. *)
Definition handleKeyEvent (key : string) (editor : TextEditor) (st : State)
  : State :=
  let '(mh, st) := getAndUpdateModeHandler editor st in
  emit (ModeHandler_handleKeyEvent mh key) st.

(** The host runs a registered command. *)
Definition runCommand (c : Command) (st : State) : State :=
  match c with
  | Cmd_type text =>
      overrideCommand "type" (command_args c) (type_task text) st
  | Cmd_replacePreviousChar text n =>
      overrideCommand "replacePreviousChar" (command_args c)
        (replacePreviousChar_task text n) st
  | Cmd_compositionStart =>
      overrideCommand "compositionStart" (command_args c)
        compositionStart_task st
  | Cmd_compositionEnd =>
      overrideCommand "compositionEnd" (command_args c) compositionEnd_task st
  | Cmd_toggleVim =>
      registerCommand
        (fun _ st =>
           let st := set_disableExtension (negb (disableExtension st)) st in
           toggleExtension (disableExtension st) st)
        st
  | Cmd_boundKey _ key => registerCommand (handleKeyEvent key) st
  end.

(** The commands that deliver a key event, and the ones among them that
    are registered through [overrideCommand]. *)
Definition isKeyEvent (c : Command) : bool :=
  match c with
  | Cmd_toggleVim => false
  | _ => true
  end.

Definition isOverridden (c : Command) : bool :=
  match c with
  | Cmd_type _ | Cmd_replacePreviousChar _ _
  | Cmd_compositionStart | Cmd_compositionEnd => true
  | _ => false
  end.

(** A command is forwarded unchanged to the host's default handling: the
    one call [default:<command>] with the same arguments is made and
    nothing else of the state changes. *)
Definition forwarded (c : Command) (st st' : State) : Prop :=
  st' = emit (Commands_executeCommand ("default:" +:+ command_name c)
                (command_args c)) st.

(** A mode handler processed a key between two states. *)
Definition isModeHandlerCall (e : Effect) : bool :=
  match e with
  | ModeHandler_handleKeyEvent _ _
  | ModeHandler_handleMultipleKeyEvents _ _ => true
  | _ => false
  end.

(** The change listener recorded the changes of an event in a mode
    handler: its content changes are the ones it had, followed by the
    event's, each with its range and text. *)
Definition records (event : TextDocumentChangeEvent)
    (before after : ModeHandler) : Prop :=
  currentContentChanges after =
  Some (default [] (currentContentChanges before) ++ contentChanges event).

(** A small workspace: one editor on [a.ts] with its mode handler. *)
Definition sample_document : TextDocument :=
  mkTextDocument "a.ts" "file:///a.ts" true false.

Definition sample_editor : TextEditor := mkTextEditor "a.ts" sample_document.

Definition sample_change : ContentChange :=
  mkContentChange (new_Range 0 0 0 0) "x".

Definition sample_event : TextDocumentChangeEvent :=
  mkChangeEvent sample_document [sample_change].

Definition sample_state (disabled : bool) (m : ModeName) : State :=
  mkState disabled (Some sample_editor) false "" false None
    {[ "a.ts" := mkModeHandler "a.ts" m None ]} [] [].

End Extension.

(** ** The key-sequence engine behind [ModeHandler.handleKeyEvent] *)
Module Engine.
Import Mode Errors.

(** Modelled from the spec: the remap resolver, the action matcher and the
    mode state machine ([src/configuration/remapper], [src/actions],
    [src/mode/modeHandler]), which the embedded files call but which are
    not among them. The definitions follow sections 4.1 to 4.3 and 7 of
    the specification; counts, register prefixes and wildcard slots of the
    action matcher are left out. The error values are those of
    [src/error.ts]. *)
Definition KeyToken : Set := string.

Record RemapEntry : Set := mkRemapEntry {
  source : list KeyToken;
  target : list KeyToken;
  remap_modes : list ModeName;
  recursive : bool
}.

(** Modelled from the spec: the semantic action identifiers of the
    grammar, as far as the mode transitions of section 4.3 tell them
    apart. *)
Inductive ActionId : Set :=
  | EscapeAction
  | Motion (name : string)
  | InsertEntry
  | VisualEntry (variant : ModeName)
  | Operator (name : string)
  | CommandLineEntry
  | OtherAction (name : string).

Record ActionDefinition : Set := mkActionDefinition {
  pattern : list KeyToken;
  action_modes : list ModeName;
  action : ActionId
}.

Inductive RemapResult : Set :=
  | RemapPending
  | RemapResolved (e : RemapEntry)
  | NotARemap.

Inductive MatchResult : Set :=
  | CompleteAction (id : ActionId)
  | AmbiguousPrefix
  | NoMatch.

Fixpoint tokens_eqb (a b : list KeyToken) : bool :=
  match a, b with
  | [], [] => true
  | x :: a', y :: b' => String.eqb x y && tokens_eqb a' b'
  | _, _ => false
  end.

(** [a] is a prefix of [b] and shorter than it. *)
Fixpoint strictPrefix (a b : list KeyToken) : bool :=
  match a, b with
  | [], [] => false
  | [], _ :: _ => true
  | x :: a', y :: b' => String.eqb x y && strictPrefix a' b'
  | _ :: _, [] => false
  end.

Definition inMode (m : ModeName) (modes : list ModeName) : bool :=
  existsb (ModeName_eqb m) modes.

(** Modelled from the spec: section 4.1, steps 1 and 2 of the remap
    resolver, the buffer against the remap sources of the mode. An empty
    buffer is never resolved. *)
Definition resolveRemap (remaps : list RemapEntry) (m : ModeName)
    (buf : list KeyToken) : RemapResult :=
  let active := List.filter (fun e => inMode m (remap_modes e)) remaps in
  match buf with
  | [] => NotARemap
  | _ :: _ =>
      if existsb (fun e => strictPrefix buf (source e)) active then RemapPending
      else
        match List.find (fun e => tokens_eqb buf (source e)) active with
        | Some e => RemapResolved e
        | None => NotARemap
        end
  end.

(** Modelled from the spec: section 4.2, the action matcher, the buffer
    against the grammar of the mode. *)
Definition matchAction (grammar : list ActionDefinition)
    (buf : list KeyToken) (m : ModeName) : MatchResult :=
  let active := List.filter (fun d => inMode m (action_modes d)) grammar in
  match List.find (fun d => tokens_eqb buf (pattern d)) active with
  | Some d => CompleteAction (action d)
  | None =>
      if existsb (fun d => strictPrefix buf (pattern d)) active
      then AmbiguousPrefix else NoMatch
  end.

(** Modelled from the spec: section 4.3, the mode state machine, the new
    mode and the new parent mode after an action. *)
Definition transition (a : ActionId) (m parent : ModeName)
  : ModeName * ModeName :=
  match a with
  | EscapeAction =>
      if ModeName_eqb m CommandLine then (parent, parent) else (Normal, Normal)
  | Motion _ =>
      if ModeName_eqb m OperatorPending then (parent, parent) else (m, parent)
  | InsertEntry => (Insert, m)
  | VisualEntry v =>
      if ModeName_eqb m v then (Normal, Normal) else (v, parent)
  | Operator _ =>
      if ModeName_eqb m OperatorPending then (parent, parent)
      else (OperatorPending, m)
  | CommandLineEntry => (CommandLine, m)
  | OtherAction _ => (m, parent)
  end.

Record EngineState : Set := mkEngineState {
  mode : ModeName;
  parentMode : ModeName;
  buffer : list KeyToken;
  timerRunning : bool;
  statusMessage : option string;
  resolved : list ActionId
}.

(** Modelled from the spec: the state after activation, Normal mode with
    an empty recorded state. *)
Definition initialState : EngineState :=
  mkEngineState Normal Normal [] false None [].

Definition waiting (buf : list KeyToken) (st : EngineState) : EngineState :=
  mkEngineState (mode st) (parentMode st) buf true (statusMessage st)
    (resolved st).

Definition cleared (st : EngineState) : EngineState :=
  mkEngineState (mode st) (parentMode st) [] false (statusMessage st)
    (resolved st).

(** Modelled from the spec: the status message that reports an invalid
    command (section 4.2); the specification fixes no wording, the keys
    of the buffer are named. *)
Definition invalidCommandMessage (buf : list KeyToken) : string :=
  "Invalid command: " +:+ String.concat "" buf.

(** Modelled from the spec: section 4.2, a buffer that matches nothing is
    cleared; it is reported as an invalid command when it had a command
    stem before its last key, and a single invalid key is discarded
    without a message. The mode stays. *)
Definition noMatch (buf : list KeyToken) (st : EngineState) : EngineState :=
  match buf with
  | [] | [_] => cleared st
  | _ :: _ :: _ =>
      mkEngineState (mode st) (parentMode st) [] false
        (Some (invalidCommandMessage buf)) (resolved st)
  end.

(** Modelled from the spec: the designated force-stop key. *)
Definition forceStopKey : KeyToken := "<C-c>".

Inductive KeyEvent : Set :=
  | KeyPressed (token : KeyToken)
  | TimerFired.

(** Feeding a key sequence, stopping at the first exception. *)
Fixpoint feedKeys (f : EngineState -> KeyToken -> Exception + EngineState)
    (keys : list KeyToken) (st : EngineState) : Exception + EngineState :=
  match keys with
  | [] => inr st
  | k :: rest =>
      match f st k with
      | inl x => inl x
      | inr st' => feedKeys f rest st'
      end
  end.

Section Engine.

Variable remaps : list RemapEntry.
Variable grammar : list ActionDefinition.

(** The external executor of an action: [Some (code, extraValue)] when the
    action fails as a user-input error. *)
Variable perform : ActionId -> ModeName -> option (ErrorCode * option string).

(** The global recursion-depth limit of remap expansion. *)
Variable depthLimit : nat.

(** Modelled from the spec: a matched action is executed; a failure of
    the executor is thrown as the [VimError] of its code, a success clears
    the buffer and makes the mode transition. *)
Definition runAction (a : ActionId) (st : EngineState)
  : Exception + EngineState :=
  match perform a (mode st) with
  | Some (c, extraValue) =>
      match fromCode (ErrorCode_value c) extraValue with
      | inr e => inl (ThrownVimError e)
      | inl x => inl x
      end
  | None =>
      let '(m, p) := transition a (mode st) (parentMode st) in
      inr (mkEngineState m p [] false (statusMessage st) (resolved st ++ [a]))
  end.

(** Modelled from the spec: section 4.1, step 3, the buffer goes to the
    action matcher; an ambiguous prefix waits on the timer, no match
    clears the buffer and reports an invalid command. *)
Definition matchBuffer (buf : list KeyToken) (st : EngineState)
  : Exception + EngineState :=
  match matchAction grammar buf (mode st) with
  | CompleteAction a => runAction a st
  | AmbiguousPrefix => inr (waiting buf st)
  | NoMatch => inr (noMatch buf st)
  end.

(** Modelled from the spec: section 4.1, one key token. The force-stop
    key stops everything; a resolved remap feeds its target, through the
    remaps again if it is recursive, within the recursion-depth limit. *)
Fixpoint feedKey (depth : nat) (useRemaps : bool) (st : EngineState)
    (token : KeyToken) : Exception + EngineState :=
  if String.eqb token forceStopKey then
    inl (ThrownForceStop (new_ForceStopRemappingError None))
  else
    let buf := buffer st ++ [token] in
    match (if useRemaps then resolveRemap remaps (mode st) buf else NotARemap) with
    | RemapPending => inr (waiting buf st)
    | RemapResolved e =>
        match depth with
        | O =>
            match fromCode (ErrorCode_value RecursiveMapping) None with
            | inr err => inl (ThrownVimError err)
            | inl x => inl x
            end
        | S d => feedKeys (feedKey d (recursive e)) (target e) (cleared st)
        end
    | NotARemap => matchBuffer buf st
    end.

(** Modelled from the spec: one key event, a token or the disambiguation
    timer firing (section 4.1, step 2), exceptions not yet caught. *)
Definition process (st : EngineState) (ev : KeyEvent)
  : Exception + EngineState :=
  match ev with
  | KeyPressed token => feedKey depthLimit true st token
  | TimerFired =>
      if timerRunning st then
        match matchAction grammar (buffer st) (mode st) with
        | CompleteAction a => runAction a st
        | AmbiguousPrefix => inr (cleared st)
        | NoMatch => inr (noMatch (buffer st) st)
        end
      else inr st
  end.

(** Modelled from the spec: section 7, the key-processing entry point
    [ModeHandler.handleKeyEvent]. A [VimError] becomes a status message
    and the engine goes back to Normal mode; a force stop unwinds without
    a message; any other exception goes on. *)
Definition handleKeyEvent (st : EngineState) (ev : KeyEvent)
  : Exception + EngineState :=
  match process st ev with
  | inl (ThrownVimError e) =>
      inr (mkEngineState Normal Normal [] false (Some (toString e)) (resolved st))
  | inl (ThrownForceStop _) =>
      inr (mkEngineState Normal Normal [] false (statusMessage st) (resolved st))
  | inl (JsError msg) => inl (JsError msg)
  | inr st' => inr st'
  end.

(** A sequence of key events through the entry point. *)
Fixpoint handleKeyEvents (evs : list KeyEvent) (st : EngineState)
  : Exception + EngineState :=
  match evs with
  | [] => inr st
  | ev :: rest =>
      match handleKeyEvent st ev with
      | inl x => inl x
      | inr st' => handleKeyEvents rest st'
      end
  end.

End Engine.

(** The remap of the specification's example: [jj] to [<Esc>]. *)
Definition jj_to_Esc (modes : list ModeName) (rec : bool) : RemapEntry :=
  mkRemapEntry ["j"; "j"] ["<Esc>"] modes rec.

(** A small grammar and executor to run the engine on: jumping to a mark
    fails, as no mark is set. *)
Definition sample_grammar : list ActionDefinition :=
  [ mkActionDefinition ["j"] [Normal; Visual; VisualLine; VisualBlock; OperatorPending]
      (Motion "down");
    mkActionDefinition ["<Esc>"]
      [Normal; Insert; Visual; VisualLine; VisualBlock; Replace;
       OperatorPending; SearchInProgress; CommandLine] EscapeAction;
    mkActionDefinition ["g"; "g"] [Normal; Visual; VisualLine; VisualBlock; OperatorPending]
      (Motion "firstLine");
    mkActionDefinition ["i"] [Normal] InsertEntry;
    mkActionDefinition ["'"; "a"] [Normal] (OtherAction "jumpToMark") ].

Definition sample_perform (a : ActionId) (m : ModeName)
  : option (ErrorCode * option string) :=
  match a with
  | OtherAction _ => Some (MarkNotSet, None)
  | _ => None
  end.

End Engine.

(** ** Further parts of the embedded files *)

(** *** The utility file ([src/unnamed/part_000]) *)
Module Util.

(** [export function clamp(num, min, max)], on integers:
    [Math.min(Math.max(num, min), max)]. *)
Definition clamp (num min max : Z) : Z := Z.min (Z.max num min) max.

End Util.

(** *** src/error.ts: the members of [ErrorCode], in the order declared *)
Module ErrorCodes.
Import Errors.

Definition ErrorCode_all : list ErrorCode :=
  [ InvalidAddress; MarkNotSet; NoAlternateFile; NoInsertedTextYet;
    NoFileName; NoPreviousCommand; NoPreviousRegularExpression;
    NoWriteSinceLastChange; ErrorWritingToFile; RecursiveMapping;
    NoStringUnderCursor; NothingInRegister; InvalidRegisterName;
    SearchHitTop; SearchHitBottom; CannotCloseLastWindow;
    ArgumentRequired; InvalidArgument; NoRangeAllowed; PatternNotFound;
    TrailingCharacters; NotAnEditorCommand; NoBuffersDeleted;
    UnknownOption; AtStartOfChangeList; AtEndOfChangeList;
    ChangeListIsEmpty ].

End ErrorCodes.

(** *** src/cmd_line/commands/sort.ts: [execute] *)
Module SortCommand.
Import Mode Errors TextBuffer Sort.

(** Modelled from the spec: [isVisualMode] of [src/mode/mode], which is
    not among the embedded files: the three modes of the Visual family. *)
Definition isVisualMode (m : ModeName) : bool :=
  match m with
  | Visual | VisualLine | VisualBlock => true
  | _ => false
  end.

(** [VimState], as far as [execute] reads it: the mode, the selection of
    the editor and the document. *)
Record VimState : Type := mkVimState {
  vim_currentMode : ModeName;
  vim_selection : Range;
  vim_document : Document
}.

(** [async execute(vimState)]. The last line of the document is
    [lineCount - 1]; on a document without lines the loop of [sortLines]
    does not run for [-1] nor for [0]. *)
Definition execute (localeCompare : string -> string -> Z)
    (args : ISortCommandArguments) (vimState : VimState)
  : Exception + Document :=
  if isVisualMode (vim_currentMode vimState) then
    sortLines localeCompare args (vim_document vimState)
      (line (range_start (vim_selection vimState)))
      (line (range_end (vim_selection vimState)))
  else
    sortLines localeCompare args (vim_document vimState)
      0 (lineCount (vim_document vimState) - 1).

End SortCommand.

(** *** extension.ts: the host runs several commands in a row *)
Module ExtensionRuns.
Import Extension.

Definition runCommands (cs : list Command) (st : State) : State :=
  fold_left (fun acc c => runCommand c acc) cs st.

(** The extension is enabled and an editor other than the debug console
    is active: the overridden commands reach their callbacks. *)
Definition ready (editor : TextEditor) (st : State) : Prop :=
  disableExtension st = false /\
  activeTextEditor st = Some editor /\
  String.eqb (uri (editor_document editor)) "debug:input" = false.

End ExtensionRuns.

(** * Properties *)

(** ** src/error.ts *)
Module ErrorsFacts.
Import Errors.

(** Every member of [ErrorCode] has a non-empty entry in [ErrorMessage]. *)
Lemma ErrorMessage_defined (c : ErrorCode) :
  exists m, ErrorMessage (ErrorCode_value c) = Some m /\ m <> "".
Proof.
  destruct c; (eexists; split; [reflexivity | discriminate]).
Qed.

Lemma truthy_ErrorMessage (c : ErrorCode) :
  truthy (ErrorMessage (ErrorCode_value c)) = true.
Proof. destruct c; reflexivity. Qed.


(** [fromCode] returns, and does not throw, on every member of the enum. *)
Lemma fromCode_ErrorCode (c : ErrorCode) (extraValue : option string) :
  fromCode (ErrorCode_value c) extraValue =
  inr (mkVimError (ErrorCode_value c)
         (default "" (ErrorMessage (ErrorCode_value c)) +:+
          (if truthy extraValue then ": " +:+ default "" extraValue else ""))).
Proof. unfold fromCode. now rewrite truthy_ErrorMessage. Qed.

(** Outside the table [fromCode] throws a plain [Error], not a [VimError]. *)
Example fromCode_unknown :
  fromCode 21 None = inl (JsError "unknown error code: 21").
Proof. reflexivity. Qed.

Example toString_MarkNotSet :
  exists e, fromCode (ErrorCode_value MarkNotSet) None = inr e
            /\ toString e = "E20: Mark not set".
Proof. eexists; split; reflexivity. Qed.

(** A force stop made after a [VimError] has the text of the error as its
    reason; the default reason is a fixed tag. *)
Example fromVimError_reason :
  reason (fromVimError (mkVimError 20 "Mark not set")) = "E20: Mark not set"
  /\ reason (new_ForceStopRemappingError None) = "StopRemapping".
Proof. split; reflexivity. Qed.




End ErrorsFacts.

(** ** src/state/globalState.ts *)
Module GlobalStateFacts.
Import Mode GlobalStateModel.

Section Facts.

Context {RecordedState SubstituteState JumpTracker SearchOptions : Type}.
Variable history_add : string -> list string -> list string.

Local Abbreviation Statics :=
  (Statics RecordedState SubstituteState JumpTracker SearchOptions).
Local Abbreviation Operation :=
  (Operation RecordedState SubstituteState JumpTracker SearchOptions).

(** What the [forEach] of [load] does to each static field. *)
Lemma forEach_push (this : GlobalState) (persisted : list string) (s : Statics) :
  let s' :=
    fold_left (fun acc val => push_searchStatePrevious this (loaded val) acc)
      persisted s in
  _searchStatePrevious s' = _searchStatePrevious s ++ map loaded persisted
  /\ _searchHistory s' = _searchHistory s
  /\ _previousFullAction s' = _previousFullAction s
  /\ _substituteState s' = _substituteState s
  /\ _searchState s' = _searchState s
  /\ _searchStateIndex s' = _searchStateIndex s
  /\ _hl s' = _hl s
  /\ _jumpTracker s' = _jumpTracker s.
Proof.
  revert s. induction persisted as [|val rest IH]; intros s; cbn.
  - rewrite app_nil_r. repeat split.
  - destruct (IH (push_searchStatePrevious this (loaded val) s))
      as (H1 & H2 & H3 & H4 & H5 & H6 & H7 & H8).
    cbn in *. rewrite H1, H2, H3, H4, H5, H6, H7, H8.
    unfold get_searchStatePrevious. rewrite <- app_assoc. repeat split.
Qed.

Lemma load_searchHistory (this : GlobalState) (persisted : list string)
    (s : Statics) :
  _searchHistory (load this persisted s) <> None.
Proof.
  unfold load.
  destruct (_searchHistory s) eqn:E.
  - rewrite E. discriminate.
  - destruct (forEach_push this persisted
                (set_searchHistory (mkSearchHistory persisted) s))
      as (_ & H & _).
    unfold loaded in H. cbn in H. rewrite H. discriminate.
Qed.

Lemma load_searchStatePrevious (this : GlobalState) (persisted : list string)
    (s : Statics) :
  _searchStatePrevious (load this persisted s) =
  _searchStatePrevious s ++
  match _searchHistory s with
  | None => map loaded persisted
  | Some _ => []
  end.
Proof.
  unfold load.
  destruct (_searchHistory s) eqn:E.
  - now rewrite app_nil_r.
  - destruct (forEach_push this persisted
                (set_searchHistory (mkSearchHistory persisted) s))
      as (H & _).
    unfold loaded in H. cbn in H. exact H.
Qed.

Lemma load_again (a c : GlobalState) (p1 p : list string) (s : Statics) :
  load c p (load a p1 s) = load a p1 s.
Proof.
  unfold load at 1.
  pose proof (load_searchHistory a p1 s) as Hne.
  destruct (_searchHistory (load a p1 s)); [reflexivity | congruence].
Qed.

Lemma load_iter (a : GlobalState) (p1 : list string) (s : Statics) (n : nat) :
  Nat.iter (S n) (load a p1) s = load a p1 s.
Proof.
  induction n as [|n IH]; [reflexivity |].
  change (Nat.iter (S (S n)) (load a p1) s)
    with (load a p1 (Nat.iter (S n) (load a p1) s)).
  rewrite IH. apply load_again.
Qed.

Lemma perform_extends (this : GlobalState) (op : Operation) (s : Statics) :
  _searchStatePrevious s
    `prefix_of` _searchStatePrevious (perform history_add this op s).
Proof.
  destruct op; cbn; try reflexivity.
  - now apply prefix_app_r.
  - rewrite load_searchStatePrevious. now apply prefix_app_r.
  - unfold addNewSearchHistoryItem.
    destruct (_searchHistory s); reflexivity.
Qed.

(** C5. The fields are held once for the process: what one instance
    writes to the search state, the previous search states, the
    substitute state, the last full action or the jump tracker is what any
    other instance reads afterwards. *)
Theorem statics_are_shared (a b : GlobalState) (s : Statics) :
  (forall v, get_searchState b (set_searchState a v s) = v) /\
  (forall v, get_searchStatePrevious b (set_searchStatePrevious a v s)
             = get_searchStatePrevious a s ++ v) /\
  (forall x, get_searchStatePrevious b (push_searchStatePrevious a x s)
             = get_searchStatePrevious a s ++ [x]) /\
  (forall v, get_substituteState b (set_substituteState a v s) = v) /\
  (forall v, get_previousFullAction b (set_previousFullAction a v s) = v) /\
  (forall method, get_jumpTracker b (call_jumpTracker a method s)
                  = method (get_jumpTracker a s)) /\
  (forall v, get_searchStateIndex b (set_searchStateIndex a v s) = v) /\
  (forall v, get_hl b (set_hl a v s) = v) /\
  (forall persisted,
     get_searchStatePrevious b (load a persisted s)
     = get_searchStatePrevious a (load b persisted s)).
Proof.
  repeat split.
Qed.

(** C8. After one call of [load] a further call, through any instance and
    whatever the history file then holds, changes no field; so any number
    of calls leaves the state of the first, and from the initial state the
    previous search states are the persisted lines, once each. *)
Theorem load_idempotent (a b : GlobalState) (p1 p2 : list string) (s : Statics) :
  load b p2 (load a p1 s) = load a p1 s /\
  (forall n, Nat.iter (S n) (load a p1) s = load a p1 s) /\
  (forall jt n,
     _searchStatePrevious (Nat.iter (S n) (load a p1) (initial jt) : Statics)
     = map loaded p1).
Proof.
  split; [apply load_again |].
  split; [apply load_iter |].
  intros jt n. rewrite load_iter, load_searchStatePrevious. reflexivity.
Qed.

(** C9. The previous search states only grow: the setter appends what is
    assigned, assigning the empty list changes nothing, and after any
    sequence of operations of the class, through any instances, the list
    starts with the entries it had, in their order. *)
Theorem searchStatePrevious_only_grows :
  (forall (this : GlobalState) states (s : Statics),
     _searchStatePrevious (set_searchStatePrevious this states s)
     = _searchStatePrevious s ++ states) /\
  (forall (this : GlobalState) (s : Statics),
     set_searchStatePrevious this [] s = s) /\
  (forall (ops : list (GlobalState * Operation)) (s : Statics),
     _searchStatePrevious s
       `prefix_of` _searchStatePrevious (run history_add ops s)).
Proof.
  split; [reflexivity |].
  split.
  - intros this s. destruct s. unfold set_searchStatePrevious. cbn.
    now rewrite app_nil_r.
  - intros ops. induction ops as [|[this op] rest IH]; intros s; cbn.
    + reflexivity.
    + etransitivity; [apply perform_extends | apply IH].
Qed.

End Facts.

End GlobalStateFacts.

(** ** extension.ts *)
Module ExtensionFacts.
Import Mode TextBuffer Extension.

Lemma ModeName_eqb_eq (a b : ModeName) : ModeName_eqb a b = true <-> a = b.
Proof. destruct a, b; cbn; split; congruence. Qed.

(** [contentChangeHandler] on one mode handler: the changes are appended
    in Insert mode and the handler is left as it is in any other mode. *)
Lemma contentChangeHandler_spec (event : TextDocumentChangeEvent)
    (mh : ModeHandler) :
  identity_fileName (contentChangeHandler event mh) = identity_fileName mh /\
  currentMode (contentChangeHandler event mh) = currentMode mh /\
  (currentMode mh = Insert -> records event mh (contentChangeHandler event mh)) /\
  (currentMode mh <> Insert -> contentChangeHandler event mh = mh).
Proof.
  unfold contentChangeHandler, records.
  destruct (ModeName_eqb (currentMode mh) Insert) eqn:E.
  - apply ModeName_eqb_eq in E. cbn.
    split; [reflexivity |]. split; [reflexivity |]. split.
    + intros _. now destruct (currentContentChanges mh).
    + congruence.
  - split; [reflexivity |]. split; [reflexivity |]. split.
    + intros H. apply ModeName_eqb_eq in H. congruence.
    + reflexivity.
Qed.

Lemma trackJumps_keeps (event : TextDocumentChangeEvent) (st : State) :
  disableExtension (trackJumps event st) = disableExtension st /\
  isTesting (trackJumps event st) = isTesting st /\
  mockModeHandler (trackJumps event st) = mockModeHandler st /\
  modeHandlers (trackJumps event st) = modeHandlers st.
Proof.
  unfold trackJumps.
  destruct (contentChanges event); [repeat split |].
  destruct (textWasDeleted event); [repeat split |].
  destruct (textWasAdded event); repeat split.
Qed.

(** C1, as the listener has it. While the extension is enabled, a content
    mutation the editor reports is recorded in a mode handler of the
    changed document exactly when that handler is in Insert mode: its
    content changes (text and affected range) are then appended to the
    history tracker's current content changes; in every other mode the
    listener leaves the mode handler as it was. Under test the one mock
    mode handler stands for the mode handlers of the document. *)
Theorem content_change_recorded_in_Insert_only
    (st : State) (event : TextDocumentChangeEvent) :
  disableExtension st = false ->
  (isTesting st = false ->
   forall k mh,
     modeHandlers st !! k = Some mh ->
     identity_fileName mh = fileName (event_document event) ->
     exists mh',
       modeHandlers (onDidChangeTextDocument event st) !! k = Some mh' /\
       identity_fileName mh' = identity_fileName mh /\
       currentMode mh' = currentMode mh /\
       (currentMode mh = Insert -> records event mh mh') /\
       (currentMode mh <> Insert -> mh' = mh)) /\
  (isTesting st = true ->
   forall mh,
     mockModeHandler st = Some mh ->
     exists mh',
       mockModeHandler (onDidChangeTextDocument event st) = Some mh' /\
       identity_fileName mh' = identity_fileName mh /\
       currentMode mh' = currentMode mh /\
       (currentMode mh = Insert -> records event mh mh') /\
       (currentMode mh <> Insert -> mh' = mh)).
Proof.
  intros Hen.
  destruct (trackJumps_keeps event st) as (_ & Ht & Hmock & Hm).
  split.
  - intros Htest k mh Hk Hfile.
    exists (contentChangeHandler event mh). split.
    + unfold onDidChangeTextDocument, handleContentChange.
      rewrite Hen, Ht, Htest. cbn.
      rewrite Hm, lookup_fmap, Hk. cbn.
      rewrite Hfile, String.eqb_refl. reflexivity.
    + apply contentChangeHandler_spec.
  - intros Htest mh Hmh.
    exists (contentChangeHandler event mh). split.
    + unfold onDidChangeTextDocument, handleContentChange.
      rewrite Hen, Ht, Htest, Hmock, Hmh. reflexivity.
    + apply contentChangeHandler_spec.
Qed.

Lemma content_change_recorded_in_Insert_only_witness :
  exists mh',
    modeHandlers (onDidChangeTextDocument sample_event (sample_state false Insert))
      !! "a.ts" = Some mh' /\
    identity_fileName mh' = "a.ts" /\
    currentMode mh' = Insert /\
    (Insert = Insert -> records sample_event (mkModeHandler "a.ts" Insert None) mh') /\
    (Insert <> Insert -> mh' = mkModeHandler "a.ts" Insert None).
Proof.
  destruct (content_change_recorded_in_Insert_only
              (sample_state false Insert) sample_event eq_refl) as [H _].
  exact (H eq_refl "a.ts" (mkModeHandler "a.ts" Insert None) eq_refl eq_refl).
Defined.

(** C1, as stated, fails: in Normal mode the listener is handed a content
    change of the mode handler's document and records nothing. *)
Lemma change_in_Normal_mode_not_recorded :
  let st := sample_state false Normal in
  let mh := mkModeHandler "a.ts" Normal None in
  disableExtension st = false /\
  modeHandlers st !! "a.ts" = Some mh /\
  identity_fileName mh = fileName (event_document sample_event) /\
  contentChanges sample_event = [sample_change] /\
  modeHandlers (onDidChangeTextDocument sample_event st) !! "a.ts" = Some mh /\
  ~ records sample_event mh mh.
Proof.
  cbv zeta. repeat split; try reflexivity.
  unfold records. cbn. discriminate.
Qed.

Lemma emit_effects (e : Effect) (st : State) :
  effects (emit e st) = effects st ++ [e].
Proof. reflexivity. Qed.

(** Every command registered through [overrideCommand] is handed to the
    host's default command while the extension is disabled. *)
Lemma overrideCommand_disabled (command : string) (args : Args)
    (callback : TextEditor -> State -> State) (st : State) :
  disableExtension st = true ->
  overrideCommand command args callback st =
  emit (Commands_executeCommand ("default:" +:+ command) args) st.
Proof. intros H. unfold overrideCommand. now rewrite H. Qed.

(** C3, as the wrapper has it. While the extension is disabled, every key
    event that reaches it through an overridden host command ([type],
    [replacePreviousChar], [compositionStart], [compositionEnd]) is
    forwarded unchanged to the host's default command: that one call is
    made, no mode handler processes a key and nothing else changes; a
    document change is neither jump-tracked nor recorded; and with a text
    editor active the toggle command clears the disabled flag, sets
    [vim.active] and hands [<ExtensionEnable>] to the mode handler of the
    active editor. *)
Theorem disabled_forwards_overridden_commands (st : State) :
  disableExtension st = true ->
  (forall c, isOverridden c = true ->
     forwarded c st (runCommand c st) /\
     effects (runCommand c st) =
       effects st ++ [Commands_executeCommand ("default:" +:+ command_name c)
                        (command_args c)] /\
     modeHandlers (runCommand c st) = modeHandlers st) /\
  (forall event, onDidChangeTextDocument event st = st) /\
  (forall editor, activeTextEditor st = Some editor ->
     disableExtension (runCommand Cmd_toggleVim st) = false /\
     effects (runCommand Cmd_toggleVim st) =
       effects st ++ [VsCodeContext_Set "vim.active" true;
                      ModeHandler_handleKeyEvent (editorIdentity editor)
                        "<ExtensionEnable>"]).
Proof.
  intros Hdis. split; [| split].
  - intros c Hc.
    assert (Hf : forwarded c st (runCommand c st)).
    { unfold forwarded.
      destruct c; try discriminate Hc; cbn [runCommand command_name];
        now apply overrideCommand_disabled. }
    split; [exact Hf |]. rewrite Hf. split; reflexivity.
  - intros event. unfold onDidChangeTextDocument. now rewrite Hdis.
  - intros editor Hed.
    unfold runCommand, registerCommand. rewrite Hed.
    unfold toggleExtension. cbn. rewrite Hdis, Hed. cbn.
    unfold getAndUpdateModeHandler. cbn.
    destruct (modeHandlers st !! editorIdentity editor); cbn;
      rewrite <- app_assoc; split; reflexivity.
Qed.

Lemma disabled_forwards_overridden_commands_witness :
  forwarded (Cmd_type "j") (sample_state true Normal)
    (runCommand (Cmd_type "j") (sample_state true Normal)) /\
  effects (runCommand (Cmd_type "j") (sample_state true Normal)) =
    [Commands_executeCommand "default:type" (TypeArgs "j")] /\
  disableExtension (runCommand Cmd_toggleVim (sample_state true Normal)) = false.
Proof.
  pose proof (disabled_forwards_overridden_commands
                (sample_state true Normal) eq_refl) as (Hc & _ & Ht).
  destruct (Hc (Cmd_type "j") eq_refl) as (Hf & He & _).
  destruct (Ht sample_editor eq_refl) as (Hd & _).
  split; [exact Hf |]. split; [exact He | exact Hd].
Defined.

(** C3, as stated, fails. A key bound to a command of its own
    ([registerCommand]) is handed to the mode handler although the
    extension is disabled, and is not forwarded to the host; and without
    an active text editor the toggle command leaves the extension
    disabled. *)
Lemma bound_key_processed_while_disabled :
  let st := runCommand Cmd_toggleVim (sample_state false Normal) in
  let c := Cmd_boundKey "extension.vim_escape" "<Esc>" in
  (disableExtension st = true /\
   isKeyEvent c = true /\
   effects (runCommand c st)
     = effects st ++ [ModeHandler_handleKeyEvent "a.ts" "<Esc>"] /\
   existsb isModeHandlerCall (drop (length (effects st)) (effects (runCommand c st)))
     = true /\
   ~ forwarded c st (runCommand c st)) /\
  (let closed := mkState true None false "" false None ∅ [] [] in
   runCommand Cmd_toggleVim closed = closed /\
   disableExtension (runCommand Cmd_toggleVim closed) = true).
Proof.
  cbv zeta. split.
  - split; [reflexivity |]. split; [reflexivity |].
    split; [reflexivity |]. split; [reflexivity |].
    unfold forwarded. intros H.
    apply (f_equal effects) in H. cbn in H. discriminate H.
  - split; reflexivity.
Qed.

End ExtensionFacts.

(** ** The key-sequence engine *)
Module EngineFacts.
Import Mode Errors Engine.

Section Facts.

Variable remaps : list RemapEntry.
Variable grammar : list ActionDefinition.
Variable perform : ActionId -> ModeName -> option (ErrorCode * option string).
Variable depthLimit : nat.


(** A key that is neither the cancel key nor part of a remap goes to the
    action matcher with the buffer. *)
Lemma feedKey_not_remap (depth : nat) (useRemaps : bool) (st : EngineState)
    (token : KeyToken) :
  String.eqb token forceStopKey = false ->
  (useRemaps = true ->
   resolveRemap remaps (mode st) (buffer st ++ [token]) = NotARemap) ->
  feedKey remaps grammar perform depth useRemaps st token
  = matchBuffer grammar perform (buffer st ++ [token]) st.
Proof.
  intros Hk Hr.
  destruct depth; cbn [feedKey]; rewrite Hk;
    (destruct useRemaps; [rewrite Hr by reflexivity |]; reflexivity).
Qed.


(** The cancel key, whatever is pending: the buffer is cleared, the timer
    stopped, the mode Normal and no status message is written. *)
Lemma force_stop_unwinds_silently (st : EngineState) :
  handleKeyEvent remaps grammar perform depthLimit st (KeyPressed forceStopKey)
  = inr (mkEngineState Normal Normal [] false (statusMessage st) (resolved st)).
Proof.
  unfold handleKeyEvent, process. now destruct depthLimit.
Qed.










(** A single key that matches nothing is discarded without a message. *)
Lemma single_invalid_key_is_silent (st : EngineState) (token : KeyToken) :
  String.eqb token forceStopKey = false ->
  buffer st = [] ->
  resolveRemap remaps (mode st) [token] = NotARemap ->
  matchAction grammar [token] (mode st) = NoMatch ->
  handleKeyEvent remaps grammar perform depthLimit st (KeyPressed token)
  = inr (cleared st).
Proof.
  intros Hk Hb Hr Hm. unfold handleKeyEvent, process.
  rewrite feedKey_not_remap by (rewrite ?Hb; auto).
  unfold matchBuffer. rewrite Hb. cbn [app]. now rewrite Hm.
Qed.



End Facts.



Lemma resolveRemap_jj (modes : list ModeName) (rec : bool) :
  inMode Normal modes = true ->
  resolveRemap [jj_to_Esc modes rec] Normal ["j"] = RemapPending /\
  resolveRemap [jj_to_Esc modes rec] Normal ["j"; "j"]
    = RemapResolved (jj_to_Esc modes rec) /\
  resolveRemap [jj_to_Esc modes rec] Normal ["<Esc>"] = NotARemap.
Proof.
  intros H. unfold resolveRemap.
  cbn [List.filter remap_modes jj_to_Esc]. rewrite H.
  repeat split.
Qed.

(** C6. With the remap of [jj] to [<Esc>] active in Normal mode, in any
    grammar where the lone [j] is the downward motion and [<Esc>] the
    Escape action: the first [j] is held back with the timer running; a
    second [j] before the timer fires resolves to the Escape action, with
    the buffer empty and the mode Normal; the timer firing after the first
    [j] resolves it as the downward motion instead. *)
Theorem jj_remap_scenario (grammar : list ActionDefinition)
    (perform : ActionId -> ModeName -> option (ErrorCode * option string))
    (depthLimit : nat) (modes : list ModeName) (rec : bool) :
  0 < depthLimit ->
  inMode Normal modes = true ->
  matchAction grammar ["j"] Normal = CompleteAction (Motion "down") ->
  matchAction grammar ["<Esc>"] Normal = CompleteAction EscapeAction ->
  perform (Motion "down") Normal = None ->
  perform EscapeAction Normal = None ->
  let remaps := [jj_to_Esc modes rec] in
  handleKeyEvent remaps grammar perform depthLimit initialState (KeyPressed "j")
    = inr (waiting ["j"] initialState) /\
  handleKeyEvents remaps grammar perform depthLimit
    [KeyPressed "j"; KeyPressed "j"] initialState
    = inr (mkEngineState Normal Normal [] false None [EscapeAction]) /\
  handleKeyEvents remaps grammar perform depthLimit
    [KeyPressed "j"; TimerFired] initialState
    = inr (mkEngineState Normal Normal [] false None [Motion "down"]).
Proof.
  intros Hd Hmodes Hj Hesc Hpj Hpesc remaps.
  destruct (resolveRemap_jj modes rec Hmodes) as (R1 & R2 & R3).
  destruct depthLimit as [|d]; [lia |].
  assert (H1 : handleKeyEvent remaps grammar perform (S d) initialState
                 (KeyPressed "j") = inr (waiting ["j"] initialState)).
  { unfold handleKeyEvent, process, remaps. cbn [feedKey].
    change (String.eqb "j" forceStopKey) with false. cbv iota.
    change (buffer initialState ++ ["j"]) with ["j"].
    change (mode initialState) with Normal.
    rewrite R1. reflexivity. }
  split; [exact H1 |]. split.
  - cbn [handleKeyEvents]. rewrite H1.
    unfold handleKeyEvent, process, remaps. cbn [feedKey].
    change (String.eqb "j" forceStopKey) with false. cbv iota.
    change (buffer (waiting ["j"] initialState) ++ ["j"]) with ["j"; "j"].
    change (mode (waiting ["j"] initialState)) with Normal.
    rewrite R2. cbn [target recursive jj_to_Esc feedKeys].
    rewrite feedKey_not_remap.
    + unfold matchBuffer.
      change (buffer (cleared (waiting ["j"] initialState)) ++ ["<Esc>"])
        with ["<Esc>"].
      change (mode (cleared (waiting ["j"] initialState))) with Normal.
      rewrite Hesc. unfold runAction.
      change (mode (cleared (waiting ["j"] initialState))) with Normal.
      rewrite Hpesc. reflexivity.
    + reflexivity.
    + intros _. exact R3.
  - cbn [handleKeyEvents]. rewrite H1.
    unfold handleKeyEvent, process.
    change (timerRunning (waiting ["j"] initialState)) with true. cbv iota.
    change (buffer (waiting ["j"] initialState)) with ["j"].
    change (mode (waiting ["j"] initialState)) with Normal.
    rewrite Hj. unfold runAction.
    change (mode (waiting ["j"] initialState)) with Normal.
    rewrite Hpj. reflexivity.
Qed.

Lemma jj_remap_scenario_witness :
  let remaps := [jj_to_Esc [Normal; Insert] false] in
  handleKeyEvent remaps sample_grammar sample_perform 8 initialState
    (KeyPressed "j")
    = inr (waiting ["j"] initialState) /\
  handleKeyEvents remaps sample_grammar sample_perform 8
    [KeyPressed "j"; KeyPressed "j"] initialState
    = inr (mkEngineState Normal Normal [] false None [EscapeAction]) /\
  handleKeyEvents remaps sample_grammar sample_perform 8
    [KeyPressed "j"; TimerFired] initialState
    = inr (mkEngineState Normal Normal [] false None [Motion "down"]).
Proof.
  apply (jj_remap_scenario sample_grammar sample_perform 8 [Normal; Insert] false);
    [lia | reflexivity | reflexivity | reflexivity | reflexivity | reflexivity].
Defined.

End EngineFacts.

(** ** src/cmd_line/commands/sort.ts *)
Module SortFacts.
Import Mode Errors TextBuffer Sort.

Lemma append_String (c : ascii) (a b : string) :
  String c a +:+ b = String c (a +:+ b).
Proof. reflexivity. Qed.

Lemma append_empty_l (a : string) : "" +:+ a = a.
Proof. reflexivity. Qed.

Lemma append_empty_r (a : string) : a +:+ "" = a.
Proof. induction a as [|c a IH]; [reflexivity |]. now rewrite append_String, IH. Qed.

Lemma string_drop_all (s : string) : string_drop (String.length s) s = "".
Proof.
  unfold string_drop. rewrite Nat.sub_diag.
  induction s as [|c s IH]; [reflexivity | exact IH].
Qed.

Lemma string_take_0 (s : string) : string_take 0 s = "".
Proof. now destruct s. Qed.

(** *** The text buffer *)

Lemma splitLines_plain (l : string) :
  noTerminator l = true -> splitLines l = [l].
Proof.
  induction l as [|c l IH]; [reflexivity |].
  cbn [noTerminator splitLines]. intros H.
  apply andb_prop in H as [H Hl]. apply andb_prop in H as [H1 H2].
  apply negb_true_iff in H1, H2. rewrite H1, H2, (IH Hl). reflexivity.
Qed.

Lemma splitLines_line (l rest : string) :
  noTerminator l = true ->
  splitLines (l +:+ LF +:+ rest) = l :: splitLines rest.
Proof.
  induction l as [|c l IH]; intros H.
  - reflexivity.
  - cbn [noTerminator] in H.
    apply andb_prop in H as [H Hl]. apply andb_prop in H as [H1 H2].
    apply negb_true_iff in H1, H2.
    rewrite append_String. cbn [splitLines]. rewrite H1, H2, (IH Hl).
    reflexivity.
Qed.

(** Joining lines with line feeds and splitting the text gives the lines
    back. *)
Lemma splitLines_concat (ls : list string) :
  ls <> [] ->
  Forall (fun l => noTerminator l = true) ls ->
  splitLines (String.concat LF ls) = ls.
Proof.
  induction ls as [|l ls IH]; [congruence |].
  intros _ H. inversion H as [|? ? Hl Hls]; subst.
  destruct ls as [|l' ls].
  - cbn [String.concat]. now apply splitLines_plain.
  - change (String.concat LF (l :: l' :: ls))
      with (l +:+ LF +:+ String.concat LF (l' :: ls)).
    rewrite splitLines_line by assumption.
    rewrite IH; [reflexivity | discriminate | assumption].
Qed.

(** *** The loop, the sort and the set *)

Lemma collectLines_spec (fuel : nat) (d : Document) (endLine cur : nat)
    (acc : list string) :
  lineCount d - cur <= fuel ->
  collectLines fuel d endLine cur acc
  = acc ++ take (S endLine - cur) (drop cur d).
Proof.
  unfold lineCount.
  revert cur acc. induction fuel as [|fuel IH]; intros cur acc Hf.
  - cbn. rewrite drop_ge by lia. rewrite take_nil. now rewrite app_nil_r.
  - cbn [collectLines]. unfold lineCount.
    destruct (Nat.leb cur endLine) eqn:E1; cbn [andb].
    + destruct (Nat.ltb cur (length d)) eqn:E2.
      * apply Nat.leb_le in E1. apply Nat.ltb_lt in E2.
        rewrite IH by lia. rewrite <- app_assoc. f_equal.
        destruct (lookup_lt_is_Some_2 d cur E2) as [x Hx].
        unfold lineAt. rewrite (nth_lookup_Some _ _ _ _ Hx).
        rewrite (drop_S _ _ _ Hx).
        replace (S endLine - cur) with (S (S endLine - S cur)) by lia.
        reflexivity.
      * apply Nat.ltb_ge in E2. rewrite drop_ge by lia.
        rewrite take_nil. now rewrite app_nil_r.
    + apply Nat.leb_gt in E1.
      replace (S endLine - cur) with 0 by lia. cbn. now rewrite app_nil_r.
Qed.

Section Sorting.

Variable compareFn : string -> string -> Z.

Local Abbreviation before := (before compareFn).

Lemma sort_insert_Permutation (x : string) (l : list string) :
  sort_insert compareFn x l ≡ₚ x :: l.
Proof.
  induction l as [|y l IH]; cbn; [reflexivity |].
  destruct (compareFn x y <=? 0)%Z; [reflexivity |].
  rewrite IH. apply Permutation_swap.
Qed.

Lemma Array_sort_Permutation (l : list string) :
  Array_sort compareFn l ≡ₚ l.
Proof.
  induction l as [|x l IH]; cbn; [reflexivity |].
  rewrite sort_insert_Permutation. now rewrite IH.
Qed.

Hypothesis compareFn_total :
  forall a b, (0 < compareFn a b)%Z -> (compareFn b a <= 0)%Z.

Lemma sort_insert_Sorted (x : string) (l : list string) :
  Sorted before l -> Sorted before (sort_insert compareFn x l).
Proof.
  induction l as [|y l IH]; intros Hs; cbn.
  - repeat constructor.
  - destruct (compareFn x y <=? 0)%Z eqn:E.
    + apply Z.leb_le in E. constructor; [exact Hs |]. constructor. exact E.
    + apply Z.leb_gt in E. apply compareFn_total in E.
      inversion Hs as [|? ? Hl Hhd]; subst.
      constructor; [now apply IH |].
      destruct l as [|z l]; cbn.
      * now constructor.
      * destruct (compareFn x z <=? 0)%Z; constructor; [exact E |].
        now inversion Hhd.
Qed.

Lemma Array_sort_Sorted (l : list string) :
  Sorted before (Array_sort compareFn l).
Proof.
  induction l as [|x l IH]; cbn; [constructor |].
  now apply sort_insert_Sorted.
Qed.

End Sorting.

Lemma defaultCompare_total (a b : string) :
  (0 < defaultCompare a b)%Z -> (defaultCompare b a <= 0)%Z.
Proof.
  unfold defaultCompare. rewrite (String.compare_antisym a b).
  destruct (String.compare b a); cbn; lia.
Qed.

(** Replacing from the start of [startLine] to the end of the last line
    of the range puts the lines of the text in the place of those lines. *)
Lemma replace_whole_lines (d : Document) (startLine endLine : nat)
    (lastLine text : string) :
  startLine <= endLine ->
  startLine < lineCount d ->
  d !! Nat.min endLine (lineCount d - 1) = Some lastLine ->
  replace d (new_Range startLine 0 endLine (String.length lastLine)) text
  = take startLine d ++ splitLines text ++ drop (S endLine) d.
Proof.
  unfold lineCount. intros Hle Hlt Hlast.
  assert (Hord : Position_leb (mkPosition startLine 0)
                   (mkPosition endLine (String.length lastLine)) = true).
  { unfold Position_leb. cbn [line character].
    destruct (Nat.ltb startLine endLine) eqn:E; [reflexivity |].
    apply Nat.ltb_ge in E. replace endLine with startLine by lia.
    now rewrite Nat.eqb_refl. }
  assert (Hnth : lineAt d (Nat.min endLine (length d - 1)) = lastLine)
    by apply (nth_lookup_Some _ _ _ _ Hlast).
  assert (Hs : validatePosition d (mkPosition startLine 0)
               = mkPosition startLine 0).
  { unfold validatePosition, lineCount. cbn [line character].
    replace (Nat.leb (length d) startLine) with false
      by (symmetry; apply Nat.leb_gt; lia).
    reflexivity. }
  assert (He : validatePosition d (mkPosition endLine (String.length lastLine))
               = mkPosition (Nat.min endLine (length d - 1))
                   (String.length lastLine)).
  { unfold validatePosition, lineCount. cbn [line character].
    destruct (Nat.leb (length d) endLine) eqn:E.
    - apply Nat.leb_le in E.
      rewrite (Nat.min_r endLine (length d - 1)) in Hnth |- * by lia.
      now rewrite Hnth.
    - apply Nat.leb_gt in E.
      rewrite (Nat.min_l endLine (length d - 1)) in Hnth |- * by lia.
      now rewrite Hnth, Nat.min_id. }
  unfold replace, new_Range. rewrite Hord. cbn [range_start range_end].
  rewrite Hs, He. cbn [line character].
  rewrite Hnth, string_take_0, string_drop_all, append_empty_l, append_empty_r.
  do 2 f_equal.
  destruct (Nat.le_gt_cases (length d) endLine).
  - rewrite !drop_ge by lia. reflexivity.
  - rewrite Nat.min_l by lia. reflexivity.
Qed.

(** Without [unique], on a range that holds a line of the document,
    [sortLines] puts in the place of the lines of the range a permutation
    of them: the stable sort of the lines, reversed under [reverse]; the
    sort is ascending by code units unless [ignoreCase] asks for the
    host's collation. *)
Lemma sortLines_without_unique (localeCompare : string -> string -> Z)
    (args : ISortCommandArguments) (d : Document) (startLine endLine : nat) :
  unique args = false ->
  startLine <= endLine ->
  startLine < lineCount d ->
  Forall (fun l => noTerminator l = true) d ->
  let lines := take (S endLine - startLine) (drop startLine d) in
  let compareFn := if ignoreCase args then localeCompare else defaultCompare in
  let sorted := Array_sort compareFn lines in
  sortLines localeCompare args d startLine endLine
  = inr (take startLine d
           ++ (if reverse args then rev sorted else sorted)
           ++ drop (S endLine) d)
  /\ sorted ≡ₚ lines
  /\ (ignoreCase args = false -> Sorted (before defaultCompare) sorted).
Proof.
  intros Hu Hle Hlt Hd lines compareFn sorted.
  assert (Hperm : sorted ≡ₚ lines) by apply Array_sort_Permutation.
  split; [| split; [exact Hperm |]].
  - unfold lineCount in Hlt.
    assert (Hlen : length lines = S (Nat.min endLine (length d - 1)) - startLine).
    { unfold lines. rewrite length_take, length_drop. lia. }
    destruct (lookup_lt_is_Some_2 d (Nat.min endLine (length d - 1)))
      as [lastLine Hlast]; [lia |].
    assert (Hl : last lines = Some lastLine).
    { rewrite last_lookup, Hlen. unfold lines.
      rewrite lookup_take_lt by lia. rewrite lookup_drop.
      rewrite <- Hlast. f_equal. lia. }
    unfold sortLines. rewrite collectLines_spec by lia.
    rewrite app_nil_l, Hu. fold lines. rewrite Hl.
    replace (if ignoreCase args
             then Array_sort (fun a b => localeCompare a b) lines
             else Array_sort defaultCompare lines)
      with sorted by (unfold sorted, compareFn; now destruct (ignoreCase args)).
    rewrite (replace_whole_lines d startLine endLine lastLine) by assumption.
    rewrite splitLines_concat; [reflexivity | |].
    + intros Hnil.
      assert (Hz : length sorted = 0).
      { destruct (reverse args); [| now rewrite Hnil].
        rewrite <- length_rev. now rewrite Hnil. }
      rewrite (Permutation_length Hperm), Hlen in Hz. lia.
    + assert (Hs : Forall (fun l => noTerminator l = true) sorted).
      { rewrite Hperm. unfold lines. now apply Forall_take, Forall_drop. }
      destruct (reverse args); [now apply Forall_rev | exact Hs].
  - intros Hi. unfold sorted, compareFn. rewrite Hi.
    apply Array_sort_Sorted, defaultCompare_total.
Qed.

(** With [unique] the last-line length is read off the array after the
    duplicates are gone, so it is the length of another line than the one
    the range ends on. *)
Example sortLines_unique_last_line (localeCompare : string -> string -> Z) :
  Set_spread [] ["aaa"; "b"; "aaa"] = ["aaa"; "b"] /\
  Array_sort defaultCompare ["aaa"; "b"] = ["aaa"; "b"] /\
  new_Range 0 0 2 (String.length "b")
  = mkRange (mkPosition 0 0) (mkPosition 2 1).
Proof. repeat split. Qed.

(** C10. On the three lines [aaa], [b], [aaa], sorted with [unique] and
    neither [reverse] nor [ignoreCase], the range should become the two
    lines [aaa] and [b]; [sortLines] replaces up to column 1 of the third
    line only and leaves the lines [aaa] and [baa]: the distinct line [b]
    is not among them. *)
Theorem sortLines_unique_leaves_residue (localeCompare : string -> string -> Z) :
  sortLines localeCompare (mkSortArgs false false true) ["aaa"; "b"; "aaa"] 0 2
  = inr ["aaa"; "baa"]
  /\ sortLines localeCompare (mkSortArgs false false true) ["aaa"; "b"; "aaa"] 0 2
     <> inr ["aaa"; "b"].
Proof. split; [reflexivity | discriminate]. Qed.

End SortFacts.

(** * Further properties *)

(** ** The utility file *)
Module UtilFacts.
Import Util.

Local Open Scope Z_scope.

(** X1. With ordered bounds the result lies within them, a number already
    within them is returned as it is, and clamping again changes
    nothing. *)
Theorem clamp_within_bounds (num min max : Z) :
  min <= max ->
  min <= clamp num min max <= max /\
  (min <= num <= max -> clamp num min max = num) /\
  (num <= min -> clamp num min max = min) /\
  (max <= num -> clamp num min max = max) /\
  clamp (clamp num min max) min max = clamp num min max.
Proof. unfold clamp. lia. Qed.

Lemma clamp_within_bounds_witness :
  3 <= clamp 12 3 7 <= 7 /\
  (3 <= 12 <= 7 -> clamp 12 3 7 = 12) /\
  (12 <= 3 -> clamp 12 3 7 = 3) /\
  (7 <= 12 -> clamp 12 3 7 = 7) /\
  clamp (clamp 12 3 7) 3 7 = clamp 12 3 7.
Proof. apply (clamp_within_bounds 12 3 7). lia. Defined.

(** X2. With the bounds the wrong way round the upper bound wins, whatever
    the number; and in every case the result is at most [max] and grows
    with the number. *)
Theorem clamp_inverted_bounds (num min max : Z) :
  (max < min -> clamp num min max = max) /\
  clamp num min max <= max /\
  (forall num', num <= num' -> clamp num min max <= clamp num' min max).
Proof. unfold clamp. split; [lia |]. split; [lia |]. intros num'. lia. Qed.

Lemma clamp_inverted_bounds_witness : clamp 5 9 2 = 2.
Proof.
  destruct (clamp_inverted_bounds 5 9 2) as (H & _). apply H. lia.
Defined.

End UtilFacts.

(** ** src/error.ts *)
Module ErrorsMore.
Import Errors ErrorCodes.

Lemma assoc_N_In (k : N) (t : list (N * string)) (v : string) :
  assoc_N k t = Some v -> In (k, v) t.
Proof.
  induction t as [|[k' v'] t IH]; cbn; [discriminate |].
  destruct (N.eqb_spec k k') as [->|_].
  - intros [= ->]. now left.
  - intros H. right. now apply IH.
Qed.

Lemma ErrorCode_all_complete (c : ErrorCode) : In c ErrorCode_all.
Proof. destruct c; cbn; tauto. Qed.

Lemma table_keys :
  map fst ErrorMessage_table = map ErrorCode_value ErrorCode_all.
Proof. reflexivity. Qed.

(** A number has an entry in [ErrorMessage] exactly when it is the value
    of a member of [ErrorCode]. *)
Lemma ErrorMessage_is_Some (n : N) :
  (exists m, ErrorMessage n = Some m) <-> (exists c, ErrorCode_value c = n).
Proof.
  split.
  - intros [m Hm]. apply assoc_N_In in Hm.
    apply (in_map fst) in Hm. rewrite table_keys in Hm.
    apply in_map_iff in Hm as (c & Hc & _). now exists c.
  - intros [c <-].
    destruct (ErrorsFacts.ErrorMessage_defined c) as (m & Hm & _). now exists m.
Qed.

(** X3. On the natural numbers [fromCode] returns a [VimError] exactly
    for the values of [ErrorCode]; for every other natural number it
    throws, and what it throws is no [VimError]. For a safe integer the
    thrown value is the plain [Error] with the text "unknown error code: "
    and the decimal digits of the number. *)
Theorem fromCode_returns_iff_member (n : N) (extraValue : option string) :
  ((exists e, fromCode n extraValue = inr e) <->
   (exists c, ErrorCode_value c = n)) /\
  ((exists x, fromCode n extraValue = inl x) <->
   (forall c, ErrorCode_value c <> n)) /\
  (forall x, fromCode n extraValue = inl x ->
             instanceof x VimErrorClass = false /\ code_of x = None) /\
  (isSafeInteger n = true ->
   (fromCode n extraValue
      = inl (JsError ("unknown error code: " +:+ number_toString n)) <->
    (forall c, ErrorCode_value c <> n))).
Proof.
  assert (Hmem : forall c, ErrorCode_value c = n ->
                           exists e, fromCode n extraValue = inr e).
  { intros c <-. rewrite ErrorsFacts.fromCode_ErrorCode. now eexists. }
  assert (Hnot : (forall c, ErrorCode_value c <> n) ->
                 fromCode n extraValue
                 = inl (JsError ("unknown error code: " +:+ number_toString n))).
  { intros Hn. unfold fromCode.
    destruct (ErrorMessage n) as [m|] eqn:E; [| reflexivity].
    destruct (proj1 (ErrorMessage_is_Some n)) as [c Hc]; [now exists m |].
    now destruct (Hn c). }
  split; [| split; [| split]].
  - split; [| intros [c Hc]; now apply (Hmem c)].
    intros [e He]. unfold fromCode in He.
    destruct (ErrorMessage n) as [m|] eqn:E.
    + apply ErrorMessage_is_Some. now exists m.
    + discriminate He.
  - split; [| intros H; eexists; now apply Hnot].
    intros [x Hx] c Hc. destruct (Hmem c Hc) as [e He]. congruence.
  - intros x Hx. unfold fromCode in Hx.
    destruct (truthy (ErrorMessage n)); [discriminate |].
    injection Hx as <-. now split.
  - intros _. split; [| exact Hnot].
    intros H c Hc. destruct (Hmem c Hc) as [e He]. congruence.
Qed.

Lemma fromCode_returns_iff_member_witness :
  fromCode 21 None = inl (JsError "unknown error code: 21").
Proof.
  destruct (fromCode_returns_iff_member 21 None) as (_ & _ & _ & H).
  apply (H eq_refl). intros c. destruct c; discriminate.
Defined.

(** X4. No two members of [ErrorCode] share a number, and no two share a
    message: the code of a [VimError], and its message as well, tell
    which member it was made from. *)
Theorem ErrorCode_values_distinct (c1 c2 : ErrorCode) :
  (ErrorCode_value c1 = ErrorCode_value c2 <-> c1 = c2) /\
  (ErrorMessage (ErrorCode_value c1) = ErrorMessage (ErrorCode_value c2)
   <-> c1 = c2).
Proof.
  split; (split; [| now intros ->]);
    destruct c1, c2; intros H; try reflexivity; discriminate H.
Qed.

(** The walk of the prototype chain needs one step at most. *)
Lemma subclass_fuel_enough (n : nat) (c d : JsClass) :
  subclass_fuel (S n) c d = subclass c d.
Proof. destruct c, d, n as [|[|n]]; reflexivity. Qed.

(** [instanceof] is a partial order on the classes of the file, with
    [Error] on top of both others, and more fuel for the walk of the
    prototype chain changes no answer. *)
Theorem subclass_partial_order :
  (forall c, subclass c c = true) /\
  (forall c d e, subclass c d = true -> subclass d e = true ->
                 subclass c e = true) /\
  (forall c d, subclass c d = true -> subclass d c = true -> c = d) /\
  (forall c, subclass c ErrorClass = true) /\
  (forall n c d, subclass_fuel (S n) c d = subclass c d).
Proof.
  split; [now intros []|]. split; [intros [] [] []; cbn; congruence |].
  split; [intros [] []; cbn; congruence |].
  split; [now intros [] | intros; apply subclass_fuel_enough].
Qed.

Lemma subclass_partial_order_witness :
  subclass VimErrorClass ErrorClass = true.
Proof.
  destruct subclass_partial_order as (_ & Ht & _).
  exact (Ht VimErrorClass VimErrorClass ErrorClass eq_refl eq_refl).
Defined.

(** Decimal digits hold no colon. *)
Lemma digits_no_colon (d : Decimal.uint) :
  Forall (fun c => c <> ":"%char)
    (list_ascii_of_string (NilEmpty.string_of_uint d)).
Proof. induction d; cbn; constructor; (discriminate || assumption). Qed.

Lemma number_toString_no_colon (n : N) :
  Forall (fun c => c <> ":"%char) (list_ascii_of_string (number_toString n)).
Proof.
  unfold number_toString, NilZero.string_of_uint.
  destruct (N.to_uint n) eqn:E; try (rewrite <- E; apply digits_no_colon).
  repeat constructor. discriminate.
Qed.

Lemma number_toString_inj (n m : N) :
  number_toString n = number_toString m -> n = m.
Proof.
  unfold number_toString. intros H.
  apply DecimalN.Unsigned.to_uint_inj.
  assert (Hnn : forall k, N.to_uint k <> Decimal.Nil).
  { intros k Hk. pose proof (f_equal N.of_uint Hk) as Hz.
    rewrite DecimalN.Unsigned.of_to in Hz. cbn in Hz. subst k.
    discriminate Hk. }
  pose proof (NilZero.usu _ (Hnn n)) as Hn.
  pose proof (NilZero.usu _ (Hnn m)) as Hm.
  rewrite H in Hn. congruence.
Qed.

(** Two texts that agree and whose fronts hold no colon split at the
    first colon in the same way. *)
Lemma split_at_colon (a b r1 r2 : string) :
  Forall (fun c => c <> ":"%char) (list_ascii_of_string a) ->
  Forall (fun c => c <> ":"%char) (list_ascii_of_string b) ->
  a +:+ String ":" r1 = b +:+ String ":" r2 ->
  a = b /\ r1 = r2.
Proof.
  revert b. induction a as [|x a IH]; intros [|y b] Ha Hb H; cbn in *.
  - now injection H.
  - injection H as <- _. now inversion Hb.
  - injection H as -> _. now inversion Ha.
  - injection H as -> H. inversion Ha; inversion Hb; subst.
    destruct (IH b) as [-> ->]; auto.
Qed.

(** X5. The rendering [E<code>: <message>] is faithful: two errors that
    render alike have the same code and the same message, and so do two
    force stops made from errors when their reasons agree. *)
Theorem toString_injective (e1 e2 : VimError) :
  (toString e1 = toString e2 <-> e1 = e2) /\
  (fromVimError e1 = fromVimError e2 <-> e1 = e2).
Proof.
  assert (H : toString e1 = toString e2 -> e1 = e2).
  { unfold toString. intros H. injection H as H.
    apply split_at_colon in H as [Hc Hm];
      try apply number_toString_no_colon.
    apply number_toString_inj in Hc. injection Hm as Hm.
    destruct e1, e2; cbn in *; congruence. }
  split; split.
  - exact H.
  - intros ->. reflexivity.
  - intros Hr. apply H.
    apply (f_equal reason) in Hr. exact Hr.
  - intros ->. reflexivity.
Qed.

End ErrorsMore.

(** ** src/state/globalState.ts *)
Module GlobalStateMore.
Import Mode GlobalStateModel.

Section Facts.

Context {RecordedState SubstituteState JumpTracker SearchOptions : Type}.
Variable history_add : string -> list string -> list string.

Local Abbreviation Statics :=
  (Statics RecordedState SubstituteState JumpTracker SearchOptions).

(** X6. The setter and the getter are no round trip: assigning the list that
    was read doubles it; the only assignment that changes nothing is that
    of the empty list; two assignments are one assignment of the
    concatenation. *)
Theorem searchStatePrevious_setter_accumulates :
  (forall (this : GlobalState) states (s : Statics),
     set_searchStatePrevious this states s = s <-> states = []) /\
  (forall (this : GlobalState) (s : Statics),
     get_searchStatePrevious this
       (set_searchStatePrevious this (get_searchStatePrevious this s) s)
     = get_searchStatePrevious this s ++ get_searchStatePrevious this s) /\
  (forall (this that : GlobalState) xs ys (s : Statics),
     set_searchStatePrevious that ys (set_searchStatePrevious this xs s)
     = set_searchStatePrevious this (xs ++ ys) s).
Proof.
  split; [| split].
  - intros this states s. split.
    + intros H. apply (f_equal _searchStatePrevious) in H. cbn in H.
      rewrite <- (app_nil_r (_searchStatePrevious s)) in H at 2.
      now apply app_inv_head in H.
    + intros ->. destruct s. unfold set_searchStatePrevious. cbn.
      now rewrite app_nil_r.
  - reflexivity.
  - intros this that xs ys s. unfold set_searchStatePrevious. cbn.
    now rewrite app_assoc.
Qed.

(** X7. The first [load] appends one search state per line of the history
    file, in the order of the file, after whatever the list held: the
    lines can be read back from the appended states, and each of these is
    a forward search from the start of the document in Normal mode. *)
Theorem load_appends_persisted_lines (this : GlobalState)
    (persisted : list string) (s : Statics) :
  _searchHistory s = None ->
  let before := get_searchStatePrevious this s in
  let after := get_searchStatePrevious this (load this persisted s) in
  after = before ++ map loaded persisted /\
  map searchString (drop (length before) after) = persisted /\
  Forall (fun x => searchDirection x = Forward /\
                   searchStartPosition x = mkPosition 0 0 /\
                   searchOptions x = None /\
                   searchCurrentMode x = Normal)
    (drop (length before) after) /\
  _searchHistory (load this persisted s) = Some (mkSearchHistory persisted).
Proof.
  intros Hnone before after.
  assert (Hafter : after = before ++ map loaded persisted).
  { unfold after, before, get_searchStatePrevious.
    rewrite GlobalStateFacts.load_searchStatePrevious. now rewrite Hnone. }
  split; [exact Hafter |]. rewrite Hafter, drop_app_length.
  split; [| split].
  - rewrite map_map. cbn. apply map_id.
  - apply List.Forall_forall. intros x Hx.
    apply in_map_iff in Hx as (v & <- & _).
    repeat split.
  - unfold load. rewrite Hnone.
    destruct (GlobalStateFacts.forEach_push this persisted
                (set_searchHistory (mkSearchHistory persisted) s))
      as (_ & H & _).
    unfold loaded in H. cbn in H. exact H.
Qed.

(** X8. Search strings offered before [load] has run are dropped: any number
    of [addNewSearchHistoryItem] calls leaves the whole state as it was,
    and a later [load] shows none of them. After [load] each call goes to
    the history and none touches the previous search states. *)
Theorem addNewSearchHistoryItem_needs_load (this : GlobalState)
    (items persisted : list string) (s : Statics) :
  _searchHistory s = None ->
  let addAll := fold_left
                  (fun acc x => addNewSearchHistoryItem history_add this x acc)
                  items in
  addAll s = s /\
  load this persisted (addAll s) = load this persisted s /\
  _searchHistory (addAll (load this persisted s))
    = Some (mkSearchHistory
              (fold_left (fun h x => history_add x h) items persisted)) /\
  _searchStatePrevious (addAll (load this persisted s))
    = _searchStatePrevious (load this persisted s).
Proof.
  intros Hnone addAll.
  assert (H1 : addAll s = s).
  { unfold addAll. clear persisted. induction items as [|x items IH]; cbn.
    - reflexivity.
    - unfold addNewSearchHistoryItem at 2. rewrite Hnone. exact IH. }
  split; [exact H1 |]. split; [now rewrite H1 |].
  assert (Hgen : forall (t : Statics) h,
             _searchHistory t = Some (mkSearchHistory h) ->
             _searchHistory (addAll t)
               = Some (mkSearchHistory
                         (fold_left (fun h x => history_add x h) items h))
             /\ _searchStatePrevious (addAll t) = _searchStatePrevious t).
  { unfold addAll. clear. induction items as [|x items IH]; intros t h Ht; cbn.
    - now split.
    - destruct (IH (addNewSearchHistoryItem history_add this x t)
                  (history_add x h)) as [IH1 IH2].
      + unfold addNewSearchHistoryItem. now rewrite Ht.
      + split; [exact IH1 |]. rewrite IH2.
        unfold addNewSearchHistoryItem. now rewrite Ht. }
  apply Hgen.
  unfold load. rewrite Hnone.
  destruct (GlobalStateFacts.forEach_push this persisted
              (set_searchHistory (mkSearchHistory persisted) s))
    as (_ & H & _).
  unfold loaded in H. cbn in H. exact H.
Qed.

End Facts.

Lemma load_appends_persisted_lines_witness :
  let s := initial tt : Statics unit unit unit unit in
  let after := get_searchStatePrevious (new_GlobalState 0)
                 (load (new_GlobalState 0) ["foo"; "bar"] s) in
  after = [] ++ map loaded ["foo"; "bar"] /\
  map searchString (drop 0 after) = ["foo"; "bar"] /\
  Forall (fun x => searchDirection x = Forward /\
                   searchStartPosition x = mkPosition 0 0 /\
                   searchOptions x = None /\
                   searchCurrentMode x = Normal)
    (drop 0 after) /\
  _searchHistory (load (new_GlobalState 0) ["foo"; "bar"] s)
    = Some (mkSearchHistory ["foo"; "bar"]).
Proof.
  exact (load_appends_persisted_lines (new_GlobalState 0) ["foo"; "bar"]
           (initial tt : Statics unit unit unit unit) eq_refl).
Defined.

Lemma addNewSearchHistoryItem_needs_load_witness :
  let s := initial tt : Statics unit unit unit unit in
  let this := new_GlobalState 0 in
  let addAll := fold_left
                  (fun acc x => addNewSearchHistoryItem (fun x h => h ++ [x]) this x acc)
                  ["a"; "b"] in
  addAll s = s /\
  load this ["foo"] (addAll s) = load this ["foo"] s /\
  _searchHistory (addAll (load this ["foo"] s))
    = Some (mkSearchHistory
              (fold_left (fun h x => h ++ [x]) ["a"; "b"] ["foo"])) /\
  _searchStatePrevious (addAll (load this ["foo"] s))
    = _searchStatePrevious (load this ["foo"] s).
Proof.
  exact (addNewSearchHistoryItem_needs_load (fun x h => h ++ [x])
           (new_GlobalState 0) ["a"; "b"] ["foo"]
           (initial tt : Statics unit unit unit unit) eq_refl).
Defined.

End GlobalStateMore.

(** ** src/cmd_line/commands/sort.ts *)
Module SortMore.
Import Mode Errors TextBuffer Sort SortCommand.

(** *** The array after [new Set] *)

Lemma existsb_eqb_elem (x : string) (seen : list string) :
  existsb (String.eqb x) seen = true <-> x ∈ seen.
Proof.
  rewrite List.existsb_exists, list_elem_of_In. split.
  - intros (y & Hy & E). apply String.eqb_eq in E. now subst.
  - intros H. exists x. split; [exact H | apply String.eqb_refl].
Qed.

Lemma Set_spread_elem (seen l : list string) (x : string) :
  x ∈ Set_spread seen l <-> x ∈ seen \/ x ∈ l.
Proof.
  revert seen. induction l as [|y l IH]; intros seen; cbn.
  - rewrite elem_of_nil. tauto.
  - destruct (existsb (String.eqb y) seen) eqn:E.
    + apply existsb_eqb_elem in E. rewrite IH, elem_of_cons.
      split; [tauto |]. intros [H|[->|H]]; tauto.
    + rewrite IH, elem_of_app, !elem_of_cons, elem_of_nil. tauto.
Qed.

Lemma Set_spread_NoDup (seen l : list string) :
  NoDup seen -> NoDup (Set_spread seen l).
Proof.
  revert seen. induction l as [|y l IH]; intros seen Hs; cbn; [exact Hs |].
  destruct (existsb (String.eqb y) seen) eqn:E; [now apply IH |].
  apply IH. apply NoDup_app. split; [exact Hs |]. split; [| apply NoDup_singleton].
  intros x Hx Hy. apply list_elem_of_singleton in Hy as ->.
  apply existsb_eqb_elem in Hx. congruence.
Qed.

Lemma Set_spread_prefix (seen l : list string) :
  seen `prefix_of` Set_spread seen l.
Proof.
  revert seen. induction l as [|y l IH]; intros seen; cbn; [reflexivity |].
  destruct (existsb (String.eqb y) seen); [apply IH |].
  etransitivity; [| apply IH]. now apply prefix_app_r.
Qed.

Lemma Set_spread_nil_iff (l : list string) :
  Set_spread [] l = [] <-> l = [].
Proof.
  split; [| now intros ->].
  destruct l as [|y l]; [reflexivity |]. cbn. intros H.
  pose proof (Set_spread_prefix [y] l) as [k Hk].
  rewrite H in Hk. discriminate Hk.
Qed.

(** *** The lines of the range *)

Lemma range_lines_length (d : Document) (startLine endLine : nat) :
  length (take (S endLine - startLine) (drop startLine d))
  = Nat.min (S endLine - startLine) (length d - startLine).
Proof. now rewrite length_take, length_drop. Qed.

Lemma range_lines_nil_iff (d : Document) (startLine endLine : nat) :
  take (S endLine - startLine) (drop startLine d) = []
  <-> endLine < startLine \/ lineCount d <= startLine.
Proof.
  unfold lineCount. split.
  - intros H. apply (f_equal length) in H.
    rewrite range_lines_length in H. cbn in H. lia.
  - intros H. apply nil_length_inv. rewrite range_lines_length. lia.
Qed.

Lemma document_parts (d : Document) (startLine endLine : nat) :
  startLine <= endLine ->
  d = take startLine d
        ++ take (S endLine - startLine) (drop startLine d)
        ++ drop (S endLine) d.
Proof.
  intros H.
  rewrite <- (take_drop startLine d) at 1. f_equal.
  rewrite <- (take_drop (S endLine - startLine) (drop startLine d)) at 1.
  f_equal. rewrite drop_drop. f_equal. lia.
Qed.

(** The document with other lines in the place of the range. *)
Lemma splice_parts (d : Document) (startLine endLine : nat)
    (out : list string) :
  startLine <= endLine ->
  startLine < length d ->
  length out = length (take (S endLine - startLine) (drop startLine d)) ->
  let d' := take startLine d ++ out ++ drop (S endLine) d in
  length d' = length d /\
  take startLine d' = take startLine d /\
  take (S endLine - startLine) (drop startLine d') = out /\
  drop (S endLine) d' = drop (S endLine) d.
Proof.
  intros Hle Hlt Hout d'. rewrite range_lines_length in Hout.
  assert (Hs : length (take startLine d) = startLine)
    by (rewrite length_take; lia).
  assert (Hdrop : drop startLine d' = out ++ drop (S endLine) d)
    by (unfold d'; now rewrite drop_app_length').
  split; [| split; [| split]].
  - unfold d'. rewrite !length_app, Hs, Hout, length_drop. lia.
  - unfold d'. now rewrite take_app_length'.
  - rewrite Hdrop.
    destruct (Nat.le_gt_cases (S endLine) (length d)).
    + rewrite take_app_length'; [reflexivity | lia].
    + rewrite (drop_ge d) by lia. rewrite app_nil_r, take_ge; [reflexivity | lia].
  - unfold d'. rewrite app_assoc.
    destruct (Nat.le_gt_cases (S endLine) (length d)).
    + rewrite drop_app_length'; [reflexivity |]. rewrite length_app. lia.
    + rewrite (drop_ge d) by lia. rewrite app_nil_r.
      apply drop_ge. rewrite length_app. lia.
Qed.

(** What [sortLines] returns when the last-line length it computes is the
    length of the last line of the range. *)
Lemma sortLines_shape (localeCompare : string -> string -> Z)
    (args : ISortCommandArguments) (d : Document) (startLine endLine : nat) :
  startLine <= endLine ->
  startLine < lineCount d ->
  Forall (fun l => noTerminator l = true) d ->
  let lines := take (S endLine - startLine) (drop startLine d) in
  let originalLines := if unique args then Set_spread [] lines else lines in
  let compareFn := if ignoreCase args then localeCompare else defaultCompare in
  let sorted := Array_sort compareFn originalLines in
  String.length <$> last originalLines = String.length <$> last lines ->
  sortLines localeCompare args d startLine endLine
  = inr (take startLine d
           ++ (if reverse args then rev sorted else sorted)
           ++ drop (S endLine) d).
Proof.
  intros Hle Hlt Hd lines originalLines compareFn sorted Hlen.
  unfold lineCount in Hlt.
  assert (Hll : length lines = S (Nat.min endLine (length d - 1)) - startLine).
  { unfold lines. rewrite range_lines_length. lia. }
  destruct (lookup_lt_is_Some_2 d (Nat.min endLine (length d - 1)))
    as [lastLine Hlast]; [lia |].
  assert (Hl : last lines = Some lastLine).
  { rewrite last_lookup, Hll. unfold lines.
    rewrite lookup_take_lt by lia. rewrite lookup_drop.
    rewrite <- Hlast. f_equal. lia. }
  rewrite Hl in Hlen. cbn in Hlen.
  destruct (last originalLines) as [lastOriginal|] eqn:Hlo; [| discriminate].
  injection Hlen as Hlen.
  assert (Hperm : sorted ≡ₚ originalLines) by apply SortFacts.Array_sort_Permutation.
  assert (Hsub : Forall (fun l => noTerminator l = true) originalLines).
  { assert (Hlines : Forall (fun l => noTerminator l = true) lines)
      by (unfold lines; now apply Forall_take, Forall_drop).
    unfold originalLines. destruct (unique args); [| exact Hlines].
    rewrite Forall_forall in Hlines |- *. intros x Hx.
    apply Set_spread_elem in Hx as [Hx|Hx]; [now apply elem_of_nil in Hx |].
    now apply Hlines. }
  unfold sortLines. rewrite SortFacts.collectLines_spec by (unfold lineCount; lia).
  rewrite app_nil_l. fold lines. fold originalLines. rewrite Hlo, Hlen.
  replace (if ignoreCase args
           then Array_sort (fun a b => localeCompare a b) originalLines
           else Array_sort defaultCompare originalLines)
    with sorted by (unfold sorted, compareFn; now destruct (ignoreCase args)).
  rewrite (SortFacts.replace_whole_lines d startLine endLine lastLine)
    by assumption.
  rewrite SortFacts.splitLines_concat; [reflexivity | |].
  - intros Hnil.
    assert (Hz : length sorted = 0).
    { destruct (reverse args); [| now rewrite Hnil].
      rewrite <- length_rev. now rewrite Hnil. }
    rewrite (Permutation_length Hperm) in Hz.
    apply nil_length_inv in Hz. rewrite Hz in Hlo. discriminate Hlo.
  - assert (Hs : Forall (fun l => noTerminator l = true) sorted)
      by now rewrite Hperm.
    destruct (reverse args); [now apply Forall_rev | exact Hs].
Qed.

(** X9. [sortLines] throws exactly when the range holds no line of the
    document, that is when it ends before it starts or starts past the
    last line; what it throws is the [TypeError] of reading the length of
    a missing last element, whatever the arguments. *)
Theorem sortLines_throws_iff_empty_range
    (localeCompare : string -> string -> Z) (args : ISortCommandArguments)
    (d : Document) (startLine endLine : nat) :
  ((exists x, sortLines localeCompare args d startLine endLine = inl x)
   <-> endLine < startLine \/ lineCount d <= startLine) /\
  (forall x, sortLines localeCompare args d startLine endLine = inl x ->
             x = JsError "TypeError: Cannot read properties of undefined").
Proof.
  set (lines := take (S endLine - startLine) (drop startLine d)).
  set (originalLines := if unique args then Set_spread [] lines else lines).
  assert (Hnil : originalLines = [] <-> lines = []).
  { unfold originalLines. destruct (unique args); [| reflexivity].
    apply Set_spread_nil_iff. }
  assert (Hunfold : sortLines localeCompare args d startLine endLine
            = match last originalLines with
              | None => inl (JsError "TypeError: Cannot read properties of undefined")
              | Some lastLine =>
                  inr (replace d
                         (new_Range startLine 0 endLine (String.length lastLine))
                         (String.concat LF
                            (let sortedLines :=
                               if ignoreCase args
                               then Array_sort (fun a b => localeCompare a b) originalLines
                               else Array_sort defaultCompare originalLines in
                             if reverse args then rev sortedLines else sortedLines)))
              end).
  { unfold sortLines. rewrite SortFacts.collectLines_spec by lia.
    rewrite app_nil_l. reflexivity. }
  rewrite Hunfold. split.
  - rewrite <- range_lines_nil_iff. fold lines. rewrite <- Hnil, <- last_None.
    destruct (last originalLines); split.
    + intros [x Hx]. discriminate Hx.
    + discriminate.
    + reflexivity.
    + intros _. now eexists.
  - intros x. destruct (last originalLines); [discriminate |]. now intros [= <-].
Qed.

Lemma sortLines_throws_iff_empty_range_witness :
  exists x,
    sortLines (fun _ _ => 0%Z) (mkSortArgs false false false) ["a"; "b"] 2 5
    = inl x.
Proof.
  apply (proj1 (sortLines_throws_iff_empty_range (fun _ _ => 0%Z)
                  (mkSortArgs false false false) ["a"; "b"] 2 5)).
  right. cbn. lia.
Defined.

(** X10. Without [unique], on a range that holds a line of the document, no
    line is lost or made up: the document after the sort is a permutation
    of the document before, with as many lines, and the lines before and
    after the range are where they were. *)
Theorem sortLines_permutes_document
    (localeCompare : string -> string -> Z) (args : ISortCommandArguments)
    (d : Document) (startLine endLine : nat) :
  unique args = false ->
  startLine <= endLine ->
  startLine < lineCount d ->
  Forall (fun l => noTerminator l = true) d ->
  exists d',
    sortLines localeCompare args d startLine endLine = inr d' /\
    d' ≡ₚ d /\
    lineCount d' = lineCount d /\
    take startLine d' = take startLine d /\
    drop (S endLine) d' = drop (S endLine) d.
Proof.
  intros Hu Hle Hlt Hd.
  destruct (SortFacts.sortLines_without_unique localeCompare args d
              startLine endLine Hu Hle Hlt Hd) as (Hres & Hperm & _).
  cbv zeta in Hres, Hperm.
  set (sorted := Array_sort (if ignoreCase args then localeCompare else defaultCompare)
                   (take (S endLine - startLine) (drop startLine d))) in *.
  set (out := if reverse args then rev sorted else sorted) in *.
  assert (Hout : out ≡ₚ take (S endLine - startLine) (drop startLine d)).
  { unfold out. destruct (reverse args); [| exact Hperm].
    now rewrite <- Permutation_rev. }
  eexists. split; [exact Hres |].
  destruct (splice_parts d startLine endLine out Hle Hlt
              (Permutation_length Hout)) as (H1 & H2 & _ & H4).
  split; [| split; [exact H1 | split; [exact H2 | exact H4]]].
  rewrite Hout. now rewrite <- (document_parts d startLine endLine Hle).
Qed.

Lemma sortLines_permutes_document_witness :
  exists d',
    sortLines (fun _ _ => 0%Z) (mkSortArgs true false false)
      ["pear"; "fig"; "apple"; "kiwi"] 1 2 = inr d' /\
    d' ≡ₚ ["pear"; "fig"; "apple"; "kiwi"] /\
    lineCount d' = 4 /\
    take 1 d' = ["pear"] /\
    drop 3 d' = ["kiwi"].
Proof.
  apply (sortLines_permutes_document (fun _ _ => 0%Z) (mkSortArgs true false false)
           ["pear"; "fig"; "apple"; "kiwi"] 1 2);
    [reflexivity | lia | cbn; lia | repeat constructor].
Defined.

(** *** The order of [sort()] *)

Lemma compare_le_trans (a b c : string) :
  String.compare a b <> Gt -> String.compare b c <> Gt ->
  String.compare a c <> Gt.
Proof.
  revert b c. induction a as [|x a IH]; intros [|y b] [|z c]; cbn;
    try congruence.
  unfold Ascii.compare.
  destruct (N.compare_spec (N_of_ascii x) (N_of_ascii y)) as [E1|E1|E1];
    destruct (N.compare_spec (N_of_ascii y) (N_of_ascii z)) as [E2|E2|E2];
    destruct (N.compare_spec (N_of_ascii x) (N_of_ascii z)) as [E3|E3|E3];
    try lia; try congruence.
  apply IH.
Qed.

Lemma before_defaultCompare (a b : string) :
  before defaultCompare a b <-> String.compare a b <> Gt.
Proof.
  unfold before, defaultCompare.
  destruct (String.compare a b); split; (congruence || lia).
Qed.

Lemma before_defaultCompare_trans : Transitive (before defaultCompare).
Proof.
  intros a b c. rewrite !before_defaultCompare. apply compare_le_trans.
Qed.

Lemma before_defaultCompare_antisym (a b : string) :
  before defaultCompare a b -> before defaultCompare b a -> a = b.
Proof.
  rewrite !before_defaultCompare, (String.compare_antisym b a).
  destruct (String.compare a b) eqn:E; cbn; try congruence.
  intros _ _. now apply String.compare_eq_iff.
Qed.

(** The sort by code units depends on the lines only, not on their
    order. *)
Lemma Array_sort_of_Permutation (l1 l2 : list string) :
  l1 ≡ₚ l2 -> Array_sort defaultCompare l1 = Array_sort defaultCompare l2.
Proof.
  intros H.
  apply (@Sorted_unique_strong _ (before defaultCompare)
           before_defaultCompare_trans).
  - intros x y _ _. apply before_defaultCompare_antisym.
  - apply SortFacts.Array_sort_Sorted, SortFacts.defaultCompare_total.
  - apply SortFacts.Array_sort_Sorted, SortFacts.defaultCompare_total.
  - now rewrite !SortFacts.Array_sort_Permutation.
Qed.

(** X11. Sorting by code units a second time changes nothing, with or without
    [reverse]: the document after [sortLines] is a fixed point of the
    same [sortLines]. *)
Theorem sortLines_idempotent
    (localeCompare : string -> string -> Z) (args : ISortCommandArguments)
    (d : Document) (startLine endLine : nat) :
  unique args = false ->
  ignoreCase args = false ->
  startLine <= endLine ->
  startLine < lineCount d ->
  Forall (fun l => noTerminator l = true) d ->
  exists d',
    sortLines localeCompare args d startLine endLine = inr d' /\
    sortLines localeCompare args d' startLine endLine = inr d'.
Proof.
  intros Hu Hi Hle Hlt Hd.
  destruct (SortFacts.sortLines_without_unique localeCompare args d
              startLine endLine Hu Hle Hlt Hd) as (Hres & Hperm & _).
  cbv zeta in Hres, Hperm. rewrite Hi in Hres, Hperm.
  set (lines := take (S endLine - startLine) (drop startLine d)) in *.
  set (sorted := Array_sort defaultCompare lines) in *.
  set (out := if reverse args then rev sorted else sorted) in *.
  assert (Hout : out ≡ₚ lines).
  { unfold out. destruct (reverse args); [| exact Hperm].
    now rewrite <- Permutation_rev. }
  destruct (splice_parts d startLine endLine out Hle Hlt
              (Permutation_length Hout)) as (H1 & H2 & H3 & H4).
  cbv zeta in H1, H2, H3, H4.
  set (d' := take startLine d ++ out ++ drop (S endLine) d) in *.
  assert (Hd' : Forall (fun l => noTerminator l = true) d').
  { unfold d'. rewrite !Forall_app. split; [now apply Forall_take |].
    split; [| now apply Forall_drop].
    rewrite Hout. unfold lines. now apply Forall_take, Forall_drop. }
  exists d'. split; [exact Hres |].
  destruct (SortFacts.sortLines_without_unique localeCompare args d'
              startLine endLine Hu Hle) as (Hres' & _); [| exact Hd' |].
  { unfold lineCount in *. now rewrite H1. }
  cbv zeta in Hres'. rewrite Hi, H2, H3, H4 in Hres'.
  rewrite (Array_sort_of_Permutation out lines Hout) in Hres'.
  exact Hres'.
Qed.

Lemma sortLines_idempotent_witness :
  exists d',
    sortLines (fun _ _ => 0%Z) (mkSortArgs true false false)
      ["pear"; "fig"; "apple"; "kiwi"] 0 2 = inr d' /\
    sortLines (fun _ _ => 0%Z) (mkSortArgs true false false) d' 0 2 = inr d'.
Proof.
  apply (sortLines_idempotent (fun _ _ => 0%Z) (mkSortArgs true false false)
           ["pear"; "fig"; "apple"; "kiwi"] 0 2);
    [reflexivity | reflexivity | lia | cbn; lia | repeat constructor].
Defined.

(** X12. With [unique], when the last of the distinct lines is as long as the
    last line of the range, the range is replaced by the distinct lines
    of the range, each once, sorted; the lines before and after the range
    stay. *)
Theorem sortLines_unique_when_last_lengths_agree
    (localeCompare : string -> string -> Z) (args : ISortCommandArguments)
    (d : Document) (startLine endLine : nat) :
  unique args = true ->
  startLine <= endLine ->
  startLine < lineCount d ->
  Forall (fun l => noTerminator l = true) d ->
  let lines := take (S endLine - startLine) (drop startLine d) in
  String.length <$> last (Set_spread [] lines) = String.length <$> last lines ->
  exists out,
    sortLines localeCompare args d startLine endLine
    = inr (take startLine d ++ out ++ drop (S endLine) d) /\
    NoDup out /\
    (forall x, x ∈ out <-> x ∈ lines) /\
    (ignoreCase args = false ->
     Sorted (before defaultCompare) (if reverse args then rev out else out)).
Proof.
  intros Hu Hle Hlt Hd lines Hlen.
  pose proof (sortLines_shape localeCompare args d startLine endLine
                Hle Hlt Hd) as Hshape.
  cbv zeta in Hshape. rewrite Hu in Hshape. specialize (Hshape Hlen).
  fold lines in Hshape.
  set (compareFn := if ignoreCase args then localeCompare else defaultCompare) in *.
  set (sorted := Array_sort compareFn (Set_spread [] lines)) in *.
  assert (Hperm : sorted ≡ₚ Set_spread [] lines)
    by apply SortFacts.Array_sort_Permutation.
  assert (Hnd : NoDup sorted).
  { rewrite Hperm. apply Set_spread_NoDup, NoDup_nil_2. }
  assert (Hel : forall x, x ∈ sorted <-> x ∈ lines).
  { intros x. rewrite Hperm, Set_spread_elem, elem_of_nil. tauto. }
  exists (if reverse args then rev sorted else sorted).
  split; [exact Hshape |].
  destruct (reverse args).
  - split; [now rewrite <- Permutation_rev |].
    split; [intros x; now rewrite <- Permutation_rev |].
    intros Hi. rewrite rev_involutive. unfold sorted, compareFn. rewrite Hi.
    apply SortFacts.Array_sort_Sorted, SortFacts.defaultCompare_total.
  - split; [exact Hnd |]. split; [exact Hel |].
    intros Hi. unfold sorted, compareFn. rewrite Hi.
    apply SortFacts.Array_sort_Sorted, SortFacts.defaultCompare_total.
Qed.

Lemma sortLines_unique_when_last_lengths_agree_witness :
  exists out,
    sortLines (fun _ _ => 0%Z) (mkSortArgs false false true)
      ["b"; "a"; "b"; "z"] 0 2
    = inr (take 0 ["b"; "a"; "b"; "z"] ++ out ++ drop 3 ["b"; "a"; "b"; "z"]) /\
    NoDup out /\
    (forall x, x ∈ out <-> x ∈ ["b"; "a"; "b"]) /\
    (false = false -> Sorted (before defaultCompare) out).
Proof.
  apply (sortLines_unique_when_last_lengths_agree (fun _ _ => 0%Z)
           (mkSortArgs false false true) ["b"; "a"; "b"; "z"] 0 2);
    [reflexivity | lia | cbn; lia | repeat constructor | reflexivity].
Defined.

(** X13. Outside the Visual modes [execute] sorts the whole document, whatever
    the selection: without [unique] the document becomes the stable sort
    of all its lines, reversed under [reverse]. *)
Theorem execute_sorts_whole_document
    (localeCompare : string -> string -> Z) (args : ISortCommandArguments)
    (m : ModeName) (selection : Range) (d : Document) :
  isVisualMode m = false ->
  unique args = false ->
  d <> [] ->
  Forall (fun l => noTerminator l = true) d ->
  let sorted :=
    Array_sort (if ignoreCase args then localeCompare else defaultCompare) d in
  execute localeCompare args (mkVimState m selection d)
  = inr (if reverse args then rev sorted else sorted) /\
  sorted ≡ₚ d /\
  (ignoreCase args = false -> Sorted (before defaultCompare) sorted).
Proof.
  intros Hm Hu Hne Hd sorted.
  assert (Hlen : 0 < length d) by (destruct d; [congruence | cbn; lia]).
  destruct (SortFacts.sortLines_without_unique localeCompare args d
              0 (lineCount d - 1) Hu) as (Hres & Hperm & Hsorted);
    [lia | exact Hlen | exact Hd |].
  cbv zeta in Hres, Hperm, Hsorted. unfold lineCount in *.
  replace (S (length d - 1) - 0) with (length d) in * by lia.
  rewrite drop_0, firstn_all in *.
  rewrite (drop_ge d (S (length d - 1))) in Hres by lia.
  rewrite take_0, app_nil_l, app_nil_r in Hres.
  split; [| split; [exact Hperm | exact Hsorted]].
  unfold execute. cbn. rewrite Hm. exact Hres.
Qed.

Lemma execute_sorts_whole_document_witness :
  execute (fun _ _ => 0%Z) (mkSortArgs false false false)
    (mkVimState Normal (new_Range 1 0 1 0) ["pear"; "fig"; "apple"])
  = inr ["apple"; "fig"; "pear"].
Proof.
  destruct (execute_sorts_whole_document (fun _ _ => 0%Z)
              (mkSortArgs false false false) Normal (new_Range 1 0 1 0)
              ["pear"; "fig"; "apple"] eq_refl eq_refl) as (H & _);
    [discriminate | repeat constructor | exact H].
Defined.

End SortMore.

(** ** extension.ts *)
Module ExtensionMore.
Import Mode TextBuffer Extension ExtensionRuns.

(** *** The change listener *)

(** X14. The jump tracker hears of a document change in two cases only: one
    single change that deletes text across lines, or one single change
    that inserts a line break within a line; never of both for one event,
    and never of an event with no change or with several. *)
Theorem jump_tracker_called_for_single_changes_only
    (event : TextDocumentChangeEvent) (st : State) :
  textWasDeleted event && textWasAdded event = false /\
  (length (contentChanges event) <> 1 -> trackJumps event st = st) /\
  (trackJumps event st = st \/
   exists c,
     contentChanges event = [c] /\
     ((trackJumps event st
       = emit (JumpTracker_handleTextDeleted (fileName (event_document event))
                 (change_range c)) st /\
       change_text c = "" /\
       line (range_start (change_range c)) <> line (range_end (change_range c)))
      \/
      (trackJumps event st
       = emit (JumpTracker_handleTextAdded (fileName (event_document event))
                 (change_range c) (change_text c)) st /\
       (change_text c = LF \/ change_text c = String CR_char LF) /\
       line (range_start (change_range c)) = line (range_end (change_range c))))).
Proof.
  unfold trackJumps, textWasDeleted, textWasAdded.
  destruct (contentChanges event) as [|c [|c' cs]] eqn:Hc; cbn [length].
  - split; [reflexivity |]. split; [reflexivity | now left].
  - destruct (String.eqb_spec (change_text c) "") as [Ht|Ht];
      destruct (Nat.eqb_spec (line (range_start (change_range c)))
                  (line (range_end (change_range c)))) as [Hl|Hl];
      cbn [andb negb].
    + rewrite Ht. cbn. split; [reflexivity |]. split; [congruence | now left].
    + split; [now rewrite andb_false_r |]. split; [congruence |].
      right. exists c. split; [reflexivity |]. left. now rewrite Ht.
    + split; [reflexivity |]. split; [congruence |].
      destruct (String.eqb_spec (change_text c) LF) as [H1|H1]; cbn [orb andb].
      * right. exists c. split; [reflexivity |]. right. auto.
      * destruct (String.eqb_spec (change_text c) (String CR_char LF)) as [H2|H2].
        -- right. exists c. split; [reflexivity |]. right. auto.
        -- now left.
    + split; [reflexivity |]. split; [congruence |].
      rewrite andb_false_r. now left.
  - split; [reflexivity |]. split; [reflexivity | now left].
Qed.

Lemma jump_tracker_called_for_single_changes_only_witness :
  trackJumps (mkChangeEvent sample_document [sample_change; sample_change])
    (sample_state false Normal)
  = sample_state false Normal.
Proof.
  destruct (jump_tracker_called_for_single_changes_only
              (mkChangeEvent sample_document [sample_change; sample_change])
              (sample_state false Normal)) as (_ & H & _).
  apply H. cbn. lia.
Defined.

Lemma handleContentChange_fields (event : TextDocumentChangeEvent) (st : State) :
  disableExtension (handleContentChange event st) = disableExtension st /\
  activeTextEditor (handleContentChange event st) = activeTextEditor st /\
  isInComposition (handleContentChange event st) = isInComposition st /\
  composingText (handleContentChange event st) = composingText st /\
  timers (handleContentChange event st) = timers st.
Proof.
  unfold handleContentChange.
  destruct (isTesting st); [destruct (mockModeHandler st) |]; repeat split.
Qed.

Lemma trackJumps_fields (event : TextDocumentChangeEvent) (st : State) :
  activeTextEditor (trackJumps event st) = activeTextEditor st /\
  isInComposition (trackJumps event st) = isInComposition st /\
  composingText (trackJumps event st) = composingText st /\
  timers (trackJumps event st) = timers st.
Proof.
  unfold trackJumps.
  destruct (contentChanges event); [repeat split |].
  destruct (textWasDeleted event); [repeat split |].
  destruct (textWasAdded event); repeat split.
Qed.

(** X15. A document change never adds, removes or retargets a mode handler and
    never changes a mode: after the listener the same editors have mode
    handlers, each with the file and the mode it had; the content changes
    it had recorded are still there, in front of any new ones; and the
    mode handler of another document is exactly as it was. *)
Theorem change_listener_keeps_mode_handlers
    (event : TextDocumentChangeEvent) (st : State) :
  let st' := onDidChangeTextDocument event st in
  dom (modeHandlers st') = dom (modeHandlers st) /\
  (forall k mh',
     modeHandlers st' !! k = Some mh' ->
     exists mh,
       modeHandlers st !! k = Some mh /\
       identity_fileName mh' = identity_fileName mh /\
       currentMode mh' = currentMode mh /\
       default [] (currentContentChanges mh)
         `prefix_of` default [] (currentContentChanges mh') /\
       (identity_fileName mh <> fileName (event_document event) -> mh' = mh)) /\
  disableExtension st' = disableExtension st /\
  activeTextEditor st' = activeTextEditor st /\
  isInComposition st' = isInComposition st /\
  composingText st' = composingText st.
Proof.
  cbv zeta. unfold onDidChangeTextDocument.
  destruct (disableExtension st) eqn:Hdis.
  { split; [reflexivity |]. split; [| now rewrite Hdis].
    intros k mh' H. exists mh'. split; [exact H |]. now repeat split. }
  destruct (ExtensionFacts.trackJumps_keeps event st) as (Hd & Ht & Hmock & Hm).
  destruct (trackJumps_fields event st) as (Ha & Hi & Hc & _).
  destruct (handleContentChange_fields event (trackJumps event st))
    as (Hd' & Ha' & Hi' & Hc' & _).
  cbn [set_timers disableExtension activeTextEditor isInComposition
       composingText modeHandlers].
  rewrite Hd', Ha', Hi', Hc', Hd, Ha, Hi, Hc, Hdis.
  split; [| split; [| repeat split]]; unfold handleContentChange; rewrite Ht.
  - destruct (isTesting st); [destruct (mockModeHandler (trackJumps event st)) |];
      cbn; rewrite Hm; [reflexivity | reflexivity |]. apply dom_fmap_L.
  - intros k mh'.
    destruct (isTesting st).
    + destruct (mockModeHandler (trackJumps event st)); cbn; rewrite Hm;
        intros H; exists mh'; (split; [exact H |]); now repeat split.
    + cbn. rewrite Hm, lookup_fmap. intros H.
      destruct (modeHandlers st !! k) as [mh|] eqn:Hk; [| discriminate H].
      cbn in H. injection H as <-. exists mh. split; [reflexivity |].
      destruct (String.eqb_spec (identity_fileName mh)
                  (fileName (event_document event))) as [E|E].
      * destruct (ExtensionFacts.contentChangeHandler_spec event mh)
          as (H1 & H2 & H3 & H4).
        split; [exact H1 |]. split; [exact H2 |]. split; [| congruence].
        destruct (ModeName_eqb (currentMode mh) Insert) eqn:Em.
        -- apply ExtensionFacts.ModeName_eqb_eq in Em.
           rewrite (H3 Em). cbn. now apply prefix_app_r.
        -- rewrite H4; [reflexivity |]. intros Em'.
           apply ExtensionFacts.ModeName_eqb_eq in Em'. congruence.
      * now repeat split.
Qed.

Lemma change_listener_keeps_mode_handlers_witness :
  exists mh,
    modeHandlers (sample_state false Insert) !! "a.ts" = Some mh /\
    currentMode mh = Insert.
Proof.
  destruct (change_listener_keeps_mode_handlers sample_event
              (sample_state false Insert)) as (_ & H & _).
  destruct (H "a.ts" (mkModeHandler "a.ts" Insert (Some [sample_change])) eq_refl)
    as (mh & H1 & _ & H2 & _).
  exists mh. split; [exact H1 | now rewrite <- H2].
Defined.

Lemma foldr_emit (f : string * ModeHandler -> Effect)
    (l : list (string * ModeHandler)) (st : State) :
  foldr (fun kv acc => emit (f kv) acc) st l
  = mkState (disableExtension st) (activeTextEditor st) (isInComposition st)
      (composingText st) (isTesting st) (mockModeHandler st) (modeHandlers st)
      (timers st) (effects st ++ rev (map f l)).
Proof.
  induction l as [|kv l IH]; cbn.
  - rewrite app_nil_r. now destruct st.
  - rewrite IH. unfold emit. cbn. now rewrite <- app_assoc.
Qed.

(** X16. When the host runs the timer of a change event, the event leaves the
    queue and no mode handler changes. The history of a mode handler is
    cleared only if the changed document is neither dirty nor untitled
    and the event held a change, and then it is cleared for exactly the
    mode handlers of that document. *)
Theorem timer_clears_history_of_saved_documents_only
    (st : State) (event : TextDocumentChangeEvent)
    (rest : list TextDocumentChangeEvent) :
  timers st = event :: rest ->
  let st' := runTimer st in
  let clean := negb (isDirty (event_document event))
               && negb (isUntitled (event_document event))
               && negb (Nat.eqb (length (contentChanges event)) 0) in
  timers st' = rest /\
  modeHandlers st' = modeHandlers st /\
  exists new,
    effects st' = effects st ++ new /\
    (forall e, e ∈ new <->
       clean = true /\
       exists k mh, e = HistoryTracker_clear k /\
                    modeHandlers st !! k = Some mh /\
                    identity_fileName mh = fileName (event_document event)).
Proof.
  intros Ht. cbv zeta. unfold runTimer. rewrite Ht.
  destruct (negb (isDirty (event_document event))
            && negb (isUntitled (event_document event))
            && negb (Nat.eqb (length (contentChanges event)) 0)) eqn:Hclean.
  - unfold handleContentChangedFromDisk. rewrite foldr_emit. cbn.
    split; [reflexivity |]. split; [reflexivity |].
    eexists. split; [reflexivity |]. intros e.
    rewrite list_elem_of_In, <- in_rev, in_map_iff. split.
    + intros ([k mh] & <- & Hin). split; [reflexivity |].
      apply (proj2 (list_elem_of_In _ _)) in Hin.
      apply list_elem_of_filter in Hin as [Hf Hin].
      apply elem_of_map_to_list in Hin. cbn in *. now exists k, mh.
    + intros (_ & k & mh & -> & Hk & Hf). exists (k, mh). split; [reflexivity |].
      apply list_elem_of_In, list_elem_of_filter. split; [exact Hf |].
      now apply elem_of_map_to_list.
  - cbn. split; [reflexivity |]. split; [reflexivity |].
    exists []. split; [now rewrite app_nil_r |].
    intros e. rewrite elem_of_nil. split; [tauto | intros [H _]; discriminate H].
Qed.

Lemma timer_clears_history_of_saved_documents_only_witness :
  let saved := mkTextDocument "a.ts" "file:///a.ts" false false in
  let event := mkChangeEvent saved [sample_change] in
  let st := onDidChangeTextDocument event (sample_state false Normal) in
  timers (runTimer st) = [] /\
  effects (runTimer st) = [HistoryTracker_clear "a.ts"].
Proof.
  cbv zeta.
  destruct (timer_clears_history_of_saved_documents_only
              (onDidChangeTextDocument
                 (mkChangeEvent (mkTextDocument "a.ts" "file:///a.ts" false false)
                    [sample_change])
                 (sample_state false Normal))
              (mkChangeEvent (mkTextDocument "a.ts" "file:///a.ts" false false)
                 [sample_change])
              [] eq_refl) as (H1 & _ & _).
  split; [exact H1 | reflexivity].
Defined.

(** *** The commands *)

Lemma getAndUpdateModeHandler_fields (editor : TextEditor) (st : State) :
  exists st1,
    getAndUpdateModeHandler editor st = (editorIdentity editor, st1) /\
    disableExtension st1 = disableExtension st /\
    activeTextEditor st1 = activeTextEditor st /\
    isInComposition st1 = isInComposition st /\
    composingText st1 = composingText st /\
    effects st1 = effects st /\
    modeOf (editorIdentity editor) st1 = modeOf (editorIdentity editor) st.
Proof.
  unfold getAndUpdateModeHandler, modeOf.
  destruct (modeHandlers st !! editorIdentity editor) eqn:E.
  - exists st. rewrite E. now repeat split.
  - eexists. split; [reflexivity |]. cbn. rewrite lookup_insert_eq.
    now repeat split.
Qed.

Lemma type_step (editor : TextEditor) (text : string) (st : State) :
  ready editor st ->
  let st' := runCommand (Cmd_type text) st in
  ready editor st' /\
  isInComposition st' = isInComposition st /\
  modeOf (editorIdentity editor) st' = modeOf (editorIdentity editor) st /\
  (isInComposition st = true ->
   composingText st' = composingText st +:+ text /\ effects st' = effects st) /\
  (isInComposition st = false ->
   composingText st' = composingText st /\
   effects st'
   = effects st ++ [ModeHandler_handleKeyEvent (editorIdentity editor) text]).
Proof.
  intros (Hd & He & Hu). cbv zeta.
  unfold runCommand, overrideCommand, type_task, ready. rewrite Hd, He, Hu.
  destruct (getAndUpdateModeHandler_fields editor st)
    as (st1 & E & H1 & H2 & H3 & H4 & H5 & H6).
  rewrite E. destruct (isInComposition st1) eqn:Hc; cbn;
    rewrite H1, H2, ?H4, ?H5, <- H3, Hd, He; unfold modeOf in *; cbn;
    repeat split; auto; congruence.
Qed.

(** X17. With no text editor active the registered commands do nothing at
    all: an enabled extension neither processes nor forwards what is
    typed, and the bound keys and the toggle are dropped whether it is
    enabled or not. *)
Theorem without_active_editor_commands_are_dropped (st : State) (c : Command) :
  activeTextEditor st = None ->
  disableExtension st = false \/ isOverridden c = false ->
  runCommand c st = st.
Proof.
  intros He H.
  destruct c; cbn [runCommand]; unfold overrideCommand, registerCommand;
    rewrite ?He; try reflexivity;
    (destruct H as [H|H]; [now rewrite H | discriminate H]).
Qed.

Lemma without_active_editor_commands_are_dropped_witness :
  runCommand (Cmd_type "j") (mkState false None false "" false None ∅ [] [])
  = mkState false None false "" false None ∅ [] [].
Proof.
  apply (without_active_editor_commands_are_dropped
           (mkState false None false "" false None ∅ [] []) (Cmd_type "j"));
    [reflexivity | now left].
Defined.

(** X18. In the debug console ([debug:input]) an enabled extension leaves what
    is typed to the host: each overridden command is forwarded unchanged
    and no mode handler sees it. *)
Theorem debug_console_is_left_to_the_host (st : State) (editor : TextEditor)
    (c : Command) :
  disableExtension st = false ->
  activeTextEditor st = Some editor ->
  uri (editor_document editor) = "debug:input" ->
  isOverridden c = true ->
  forwarded c st (runCommand c st) /\
  modeHandlers (runCommand c st) = modeHandlers st.
Proof.
  intros Hd He Hu Hc.
  assert (Hf : forwarded c st (runCommand c st)).
  { unfold forwarded.
    destruct c; try discriminate Hc; cbn [runCommand command_name];
      unfold overrideCommand; now rewrite Hd, He, Hu. }
  split; [exact Hf |]. now rewrite Hf.
Qed.

Lemma debug_console_is_left_to_the_host_witness :
  let console := mkTextEditor "debug" (mkTextDocument "input" "debug:input" false true) in
  let st := mkState false (Some console) false "" false None ∅ [] [] in
  effects (runCommand (Cmd_type "p") st)
  = [Commands_executeCommand "default:type" (TypeArgs "p")].
Proof.
  cbv zeta.
  destruct (debug_console_is_left_to_the_host
              (mkState false
                 (Some (mkTextEditor "debug"
                          (mkTextDocument "input" "debug:input" false true)))
                 false "" false None ∅ [] [])
              (mkTextEditor "debug" (mkTextDocument "input" "debug:input" false true))
              (Cmd_type "p") eq_refl eq_refl eq_refl eq_refl) as [H _].
  now rewrite H.
Defined.

Lemma runCommands_app (cs1 cs2 : list Command) (st : State) :
  runCommands (cs1 ++ cs2) st = runCommands cs2 (runCommands cs1 st).
Proof. apply fold_left_app. Qed.

Lemma typed_outside_composition (editor : TextEditor) (texts : list string)
    (st : State) :
  ready editor st ->
  isInComposition st = false ->
  let st' := runCommands (map Cmd_type texts) st in
  ready editor st' /\
  isInComposition st' = false /\
  composingText st' = composingText st /\
  effects st'
  = effects st ++ map (ModeHandler_handleKeyEvent (editorIdentity editor)) texts.
Proof.
  revert st. induction texts as [|t texts IH]; intros st Hr Hc; cbn.
  - rewrite app_nil_r. split; [exact Hr |]. split; [exact Hc |].
    split; reflexivity.
  - destruct (type_step editor t st Hr) as (Hr' & Hc' & _ & _ & Hout).
    destruct (Hout Hc) as [Ht He].
    destruct (IH (runCommand (Cmd_type t) st) Hr') as (R1 & R2 & R3 & R4);
      [congruence |].
    unfold runCommands in *. cbn in *.
    split; [exact R1 |]. split; [exact R2 |]. split; [congruence |].
    rewrite R4, He, <- app_assoc. reflexivity.
Qed.

(** X19. Outside a composition every typed text reaches the mode handler of
    the active editor, once each and in the order typed, and nothing is
    forwarded to the host. *)
Theorem typed_text_reaches_the_mode_handler_in_order
    (editor : TextEditor) (texts : list string) (st : State) :
  disableExtension st = false ->
  activeTextEditor st = Some editor ->
  uri (editor_document editor) <> "debug:input" ->
  isInComposition st = false ->
  effects (runCommands (map Cmd_type texts) st)
  = effects st ++ map (ModeHandler_handleKeyEvent (editorIdentity editor)) texts.
Proof.
  intros Hd He Hu Hc.
  apply typed_outside_composition; [| exact Hc].
  split; [exact Hd |]. split; [exact He |].
  apply (proj2 (String.eqb_neq _ _)), Hu.
Qed.

Lemma typed_text_reaches_the_mode_handler_in_order_witness :
  effects (runCommands (map Cmd_type ["d"; "w"]) (sample_state false Normal))
  = [ModeHandler_handleKeyEvent "a.ts" "d"; ModeHandler_handleKeyEvent "a.ts" "w"].
Proof.
  apply (typed_text_reaches_the_mode_handler_in_order sample_editor ["d"; "w"]
           (sample_state false Normal));
    [reflexivity | reflexivity | discriminate | reflexivity].
Defined.

(** *** Composition *)

Lemma string_app_assoc (a b c : string) : (a +:+ b) +:+ c = a +:+ (b +:+ c).
Proof.
  induction a as [|x a IH]; [reflexivity |].
  now rewrite !SortFacts.append_String, IH.
Qed.

Lemma concat_empty_cons (x : string) (l : list string) :
  String.concat "" (x :: l) = x +:+ String.concat "" l.
Proof.
  destruct l; cbn [String.concat].
  - now rewrite SortFacts.append_empty_r.
  - reflexivity.
Qed.

Lemma string_length_app (a b : string) :
  String.length (a +:+ b) = String.length a + String.length b.
Proof.
  induction a as [|x a IH]; [reflexivity |].
  rewrite SortFacts.append_String. cbn. now rewrite IH.
Qed.

Lemma string_take_app (a b : string) :
  string_take (String.length a) (a +:+ b) = a.
Proof.
  unfold string_take. induction a as [|x a IH].
  - now destruct b.
  - rewrite SortFacts.append_String. cbn. now rewrite IH.
Qed.

Lemma compositionStart_step (editor : TextEditor) (st : State) :
  ready editor st ->
  let st' := runCommand Cmd_compositionStart st in
  ready editor st' /\
  composingText st' = composingText st /\
  effects st' = effects st /\
  modeOf (editorIdentity editor) st' = modeOf (editorIdentity editor) st /\
  isInComposition st'
  = if ModeName_eqb (modeOf (editorIdentity editor) st) Insert
    then isInComposition st else true.
Proof.
  intros (Hd & He & Hu). cbv zeta.
  unfold runCommand, overrideCommand, compositionStart_task, ready.
  rewrite Hd, He, Hu.
  destruct (getAndUpdateModeHandler_fields editor st)
    as (st1 & E & H1 & H2 & H3 & H4 & H5 & H6).
  rewrite E, H6.
  destruct (ModeName_eqb (modeOf (editorIdentity editor) st) Insert); cbn;
    rewrite ?H1, ?H2, ?H3, ?H4, ?H5, ?Hd, ?He; unfold modeOf in *; cbn;
    repeat split; auto.
Qed.

Lemma compositionEnd_step (editor : TextEditor) (st : State) :
  ready editor st ->
  let st' := runCommand Cmd_compositionEnd st in
  if ModeName_eqb (modeOf (editorIdentity editor) st) Insert
  then isInComposition st' = isInComposition st /\
       composingText st' = composingText st /\
       effects st' = effects st
  else isInComposition st' = false /\
       composingText st' = "" /\
       effects st'
       = effects st ++ [ModeHandler_handleMultipleKeyEvents
                          (editorIdentity editor)
                          (split_chars (composingText st))].
Proof.
  intros (Hd & He & Hu). cbv zeta.
  unfold runCommand, overrideCommand, compositionEnd_task.
  rewrite Hd, He, Hu.
  destruct (getAndUpdateModeHandler_fields editor st)
    as (st1 & E & H1 & H2 & H3 & H4 & H5 & H6).
  rewrite E, H6.
  destruct (ModeName_eqb (modeOf (editorIdentity editor) st) Insert); cbn;
    rewrite ?H3, ?H4, ?H5; repeat split.
Qed.

Lemma typed_in_composition (editor : TextEditor) (texts : list string)
    (st : State) :
  ready editor st ->
  isInComposition st = true ->
  let st' := runCommands (map Cmd_type texts) st in
  ready editor st' /\
  isInComposition st' = true /\
  modeOf (editorIdentity editor) st' = modeOf (editorIdentity editor) st /\
  composingText st' = composingText st +:+ String.concat "" texts /\
  effects st' = effects st.
Proof.
  revert st. induction texts as [|t texts IH]; intros st Hr Hc.
  - cbn. rewrite SortFacts.append_empty_r. now repeat (split; [assumption || reflexivity |]).
  - destruct (type_step editor t st Hr) as (Hr' & Hc' & Hm & Hin & _).
    destruct (Hin Hc) as [Ht He].
    destruct (IH (runCommand (Cmd_type t) st) Hr') as (R1 & R2 & R3 & R4 & R5);
      [congruence |].
    unfold runCommands in *. cbn [map fold_left] in *.
    split; [exact R1 |]. split; [exact R2 |]. split; [congruence |].
    split; [| congruence].
    rewrite R4, Ht, concat_empty_cons. apply string_app_assoc.
Qed.

(** X20. A composition started outside Insert mode holds back what is typed:
    between [compositionStart] and [compositionEnd] no typed text reaches
    a mode handler; [compositionEnd] then hands over all of it, character
    by character and in the order typed, in one call, and the composition
    is over. *)
Theorem composition_delivers_typed_text_at_its_end
    (editor : TextEditor) (texts : list string) (st : State) :
  disableExtension st = false ->
  activeTextEditor st = Some editor ->
  uri (editor_document editor) <> "debug:input" ->
  modeOf (editorIdentity editor) st <> Insert ->
  composingText st = "" ->
  let during := runCommands (Cmd_compositionStart :: map Cmd_type texts) st in
  let st' := runCommand Cmd_compositionEnd during in
  effects during = effects st /\
  effects st'
  = effects st ++ [ModeHandler_handleMultipleKeyEvents (editorIdentity editor)
                     (split_chars (String.concat "" texts))] /\
  isInComposition st' = false /\
  composingText st' = "".
Proof.
  intros Hd He Hu Hm Hc.
  assert (Hr : ready editor st).
  { split; [exact Hd |]. split; [exact He |].
    apply (proj2 (String.eqb_neq _ _)), Hu. }
  assert (Hne : ModeName_eqb (modeOf (editorIdentity editor) st) Insert = false).
  { destruct (ModeName_eqb _ Insert) eqn:E; [| reflexivity].
    apply ExtensionFacts.ModeName_eqb_eq in E. congruence. }
  destruct (compositionStart_step editor st Hr) as (S1 & S2 & S3 & S4 & S5).
  rewrite Hne in S5.
  destruct (typed_in_composition editor texts
              (runCommand Cmd_compositionStart st) S1 S5)
    as (T1 & T2 & T3 & T4 & T5).
  cbv zeta in *.
  change (runCommands (Cmd_compositionStart :: map Cmd_type texts) st)
    with (runCommands (map Cmd_type texts) (runCommand Cmd_compositionStart st)).
  split; [congruence |].
  pose proof (compositionEnd_step editor _ T1) as E. cbv zeta in E.
  rewrite T3, S4, Hne in E. destruct E as (E1 & E2 & E3).
  split; [| split; [exact E1 | exact E2]].
  rewrite E3, T5, S3, T4, S2, Hc. reflexivity.
Qed.

Lemma composition_delivers_typed_text_at_its_end_witness :
  effects (runCommands [Cmd_compositionStart; Cmd_type "n"; Cmd_type "i";
                        Cmd_compositionEnd] (sample_state false Normal))
  = [ModeHandler_handleMultipleKeyEvents "a.ts" ["n"; "i"]].
Proof.
  destruct (composition_delivers_typed_text_at_its_end sample_editor ["n"; "i"]
              (sample_state false Normal)) as (_ & H & _);
    [reflexivity | reflexivity | discriminate | discriminate | reflexivity |].
  exact H.
Defined.

(** X21. Within a composition [replacePreviousChar] edits the text held back:
    it drops the last [replaceCharCnt] characters and appends the new
    text, so replacing as many characters as were just typed undoes that
    typing, and a count as large as the whole text leaves the new text
    alone; nothing reaches the host or a mode handler. *)
Theorem replacePreviousChar_edits_the_composing_text
    (editor : TextEditor) (typed text : string) (st : State) :
  disableExtension st = false ->
  activeTextEditor st = Some editor ->
  uri (editor_document editor) <> "debug:input" ->
  isInComposition st = true ->
  let st' := runCommands
               [Cmd_type typed; Cmd_replacePreviousChar text (String.length typed)]
               st in
  composingText st' = composingText st +:+ text /\
  effects st' = effects st /\
  (forall n, String.length (composingText st) <= n ->
     composingText (runCommand (Cmd_replacePreviousChar text n) st) = text /\
     effects (runCommand (Cmd_replacePreviousChar text n) st) = effects st).
Proof.
  intros Hd He Hu Hc.
  assert (Hr : ready editor st).
  { split; [exact Hd |]. split; [exact He |].
    apply (proj2 (String.eqb_neq _ _)), Hu. }
  assert (Hstep : forall s n, ready editor s -> isInComposition s = true ->
            composingText (runCommand (Cmd_replacePreviousChar text n) s)
            = string_take (String.length (composingText s) - n) (composingText s)
              +:+ text /\
            effects (runCommand (Cmd_replacePreviousChar text n) s) = effects s).
  { intros s n (Sd & Se & Su) Sc.
    unfold runCommand, overrideCommand, replacePreviousChar_task.
    rewrite Sd, Se, Su.
    destruct (getAndUpdateModeHandler_fields editor s)
      as (s1 & E & H1 & H2 & H3 & H4 & H5 & H6).
    rewrite E, H3, Sc. cbn. now rewrite H4, H5. }
  cbv zeta. split; [| split].
  - destruct (type_step editor typed st Hr) as (Hr' & Hc' & _ & Hin & _).
    destruct (Hin Hc) as [Ht _].
    destruct (Hstep (runCommand (Cmd_type typed) st) (String.length typed) Hr')
      as [H _]; [congruence |].
    unfold runCommands. cbn [fold_left]. rewrite H, Ht, string_length_app.
    replace (String.length (composingText st) + String.length typed
             - String.length typed) with (String.length (composingText st)) by lia.
    now rewrite string_take_app.
  - destruct (type_step editor typed st Hr) as (Hr' & Hc' & _ & Hin & _).
    destruct (Hin Hc) as [_ Ht].
    destruct (Hstep (runCommand (Cmd_type typed) st) (String.length typed) Hr')
      as [_ H]; [congruence |].
    unfold runCommands. cbn [fold_left]. congruence.
  - intros n Hn. destruct (Hstep st n Hr Hc) as [H1 H2].
    split; [| exact H2]. rewrite H1.
    replace (String.length (composingText st) - n) with 0 by lia.
    now rewrite SortFacts.string_take_0.
Qed.

Lemma replacePreviousChar_edits_the_composing_text_witness :
  let st := mkState false (Some sample_editor) true "ni" false None ∅ [] [] in
  composingText
    (runCommands [Cmd_type "h"; Cmd_replacePreviousChar "m" 1] st)
  = "ni" +:+ "m".
Proof.
  cbv zeta.
  destruct (replacePreviousChar_edits_the_composing_text sample_editor "h" "m"
              (mkState false (Some sample_editor) true "ni" false None ∅ [] []))
    as (H & _); [reflexivity | reflexivity | discriminate | reflexivity |].
  exact H.
Defined.

(** *** The toggle *)

(** X22. Switching the extension off and on again, with an editor active,
    throws away every mode handler and any composition: while off there
    is no mode handler at all, and after switching on the only one is a
    fresh one for the active editor. The host is told [vim.active] and the
    mode handler [<ExtensionDisable>], then [<ExtensionEnable>], in that
    order. *)
Theorem toggle_off_and_on_resets_mode_handlers
    (st : State) (editor : TextEditor) :
  disableExtension st = false ->
  activeTextEditor st = Some editor ->
  let off := runCommand Cmd_toggleVim st in
  let on := runCommand Cmd_toggleVim off in
  off = mkState true (Some editor) false "" (isTesting st) (mockModeHandler st)
          ∅ (timers st)
          (effects st ++ [VsCodeContext_Set "vim.active" false;
                          ModeHandler_handleKeyEvent (editorIdentity editor)
                            "<ExtensionDisable>"]) /\
  on = mkState false (Some editor) false "" (isTesting st) (mockModeHandler st)
         {[ editorIdentity editor := new_ModeHandler editor ]} (timers st)
         (effects st ++ [VsCodeContext_Set "vim.active" false;
                         ModeHandler_handleKeyEvent (editorIdentity editor)
                           "<ExtensionDisable>";
                         VsCodeContext_Set "vim.active" true;
                         ModeHandler_handleKeyEvent (editorIdentity editor)
                           "<ExtensionEnable>"]).
Proof.
  intros Hd He.
  assert (Hoff : runCommand Cmd_toggleVim st
           = mkState true (Some editor) false "" (isTesting st) (mockModeHandler st)
               ∅ (timers st)
               (effects st ++ [VsCodeContext_Set "vim.active" false;
                               ModeHandler_handleKeyEvent (editorIdentity editor)
                                 "<ExtensionDisable>"])).
  { unfold runCommand, registerCommand. rewrite He.
    unfold toggleExtension. cbn. rewrite Hd, He. cbn.
    unfold getAndUpdateModeHandler. cbn.
    destruct (modeHandlers st !! editorIdentity editor);
      unfold set_modeHandlers, set_composition, emit, set_disableExtension;
      cbn; rewrite He, <- app_assoc; reflexivity. }
  cbv zeta. split; [exact Hoff |]. rewrite Hoff.
  unfold runCommand, registerCommand, toggleExtension, getAndUpdateModeHandler.
  cbn. rewrite lookup_empty.
  unfold set_modeHandlers, set_composition, emit, set_disableExtension.
  cbn. rewrite insert_empty, <- !app_assoc. reflexivity.
Qed.

Lemma toggle_off_and_on_resets_mode_handlers_witness :
  modeHandlers (runCommand Cmd_toggleVim (sample_state false Insert)) = ∅ /\
  modeHandlers (runCommand Cmd_toggleVim
                  (runCommand Cmd_toggleVim (sample_state false Insert)))
  = {[ "a.ts" := mkModeHandler "a.ts" Normal None ]}.
Proof.
  destruct (toggle_off_and_on_resets_mode_handlers (sample_state false Insert)
              sample_editor eq_refl eq_refl) as [H1 H2].
  cbv zeta in H1, H2. rewrite H2, H1. split; reflexivity.
Defined.

End ExtensionMore.
